(** * remarkable-highlights: a shallow embedding of the highlight extractor

    The development follows the two source modules:
    - [parsing.py]: the operator tokenizer ([tokenize_graphics]) and the
      stroke interpreter ([highlighter_lines]);
    - [extract.py]: the classifier, the word matcher, the run merger and the
      page loop ([extract_highlights]).

    Python values are modelled as follows.  Strings are [string]; a Python
    [float] coordinate is a rational [Q] (the rounding of binary64 is not
    modelled); [int] is [Z]; an exception is a value of [exn] carried by
    [result]; the two [defaultdict(list)] accumulators are [gmap Z (list _)].
    Geometry objects of shapely are polygons with rational vertices. *)

From Stdlib Require Import QArith Qabs Qminmax Qround Lqa Ascii String.
From stdpp Require Import base list strings gmap.

Local Open Scope string_scope.
Local Open Scope list_scope.

(** ** Exceptions and results *)

Inductive exn : Type :=
  | ValueError (msg : string)
  | KeyError (key : string)
  | KeyErrorInt (key : Z)
  | IndexError
  | AssertionError (msg : string)
  | NotImplementedError (msg : string)
  | ZeroDivisionError
  | TypeError
  | UnicodeDecodeError.

Inductive result (A : Type) : Type :=
  | Ok (a : A)
  | Raise (e : exn).
Arguments Ok {A} a.
Arguments Raise {A} e.

Definition bind {A B} (r : result A) (k : A -> result B) : result B :=
  match r with
  | Ok a => k a
  | Raise e => Raise e
  end.

Notation "'let*' x ':=' r 'in' k" := (bind r (fun x => k))
  (at level 10, x pattern, r at level 100, k at level 200).

(** [[f(x) for x in l]] where [f] may raise: the first exception aborts. *)
Fixpoint mapM {A B} (f : A -> result B) (l : list A) : result (list B) :=
  match l with
  | [] => Ok []
  | x :: t => let* y := f x in let* ys := mapM f t in Ok (y :: ys)
  end.

Definition is_ok {A} (r : result A) : bool :=
  match r with Ok _ => true | Raise _ => false end.

(** ** [itertools.groupby] *)

Section GroupBy.
Context {A K : Type} `{EqDecision K} (key : A -> K).

(** The iterator keeps the key of the group being built ([tgtkey]) and
    closes the group at the first element whose key differs. *)
Fixpoint groupby_from (tgtkey : K) (group : list A) (l : list A)
    : list (K * list A) :=
  match l with
  | [] => [(tgtkey, group)]
  | x :: t =>
      if decide (key x = tgtkey)
      then groupby_from tgtkey (group ++ [x]) t
      else (tgtkey, group) :: groupby_from (key x) [x] t
  end.

Definition groupby (l : list A) : list (K * list A) :=
  match l with
  | [] => []
  | x :: t => groupby_from (key x) [x] t
  end.
End GroupBy.

(** ** The run merger ([extract_text_highlights], lines 156-173) *)

(** [" ".join(run)] *)
Fixpoint join (sep : string) (l : list string) : string :=
  match l with
  | [] => ""
  | x :: t =>
      match t with
      | [] => x
      | _ :: _ => x +:+ sep +:+ join sep t
      end
  end.

Module RunMerger.

(** A word of the page with the flag [is_highlighted] computed for it. *)
Definition tagged : Type := string * bool.

(** [runs]: consecutive words of equal flag, the words only. *)
Definition runs (ws : list tagged) : list (bool * list string) :=
  map (fun '(is_selected, words) => (is_selected, map fst words))
      (groupby snd ws).

(** [marked_skips]: a run counts as selected when it is highlighted or
    short enough. *)
Definition marked_skips (max_skip_len : Z) (rs : list (bool * list string))
    : list (bool * list string) :=
  map (fun '(is_selected, run) =>
         (is_selected || bool_decide (Z.of_nat (length run) <= max_skip_len)%Z,
          run))
      rs.

(** [merged_runs]: regroup by the mark and keep the marked groups. *)
Definition merged_runs (ms : list (bool * list string)) : list (list string) :=
  map (fun '(_, runs_to_merge) => concat (map snd runs_to_merge))
      (List.filter fst (groupby fst ms)).

Definition merge (max_skip_len : Z) (ws : list tagged) : list (list string) :=
  merged_runs (marked_skips max_skip_len (runs ws)).

Definition run_merger (max_skip_len : Z) (ws : list tagged) : list string :=
  map (join " ") (merge max_skip_len ws).

(** Blocks of words that are all highlighted, or all not. *)
Definition highlighted (ws : list tagged) : Prop := Forall (fun w => snd w = true) ws.
Definition unhighlighted (ws : list tagged) : Prop := Forall (fun w => snd w = false) ws.

End RunMerger.

(** ** Geometry: the part of shapely the extractor relies on *)

Module Geometry.
Local Open Scope Q_scope.

Definition point : Type := Q * Q.
Definition ring : Type := list point.

(** A shapely [Polygon]: an exterior ring and its holes. *)
Record Polygon : Type := mkPolygon {
  exterior : ring;
  interiors : list ring
}.

(** [box(minx, miny, maxx, maxy)], the bounding rectangle of a word. *)
Record Box : Type := mkBox { minx : Q; miny : Q; maxx : Q; maxy : Q }.

(** What [unary_union] may return. *)
Inductive Geom : Type :=
  | GPolygon (p : Polygon)
  | GMultiPolygon (geoms : list Polygon)
  | GOther (geom_type : string).

Definition Qlt_bool (a b : Q) : bool := negb (Qle_bool b a).

(** The edges of a ring, the closing edge from the last vertex back to the
    first included (it is degenerate when the ring repeats its first
    vertex at the end, as shapely's coordinate sequences do). *)
Fixpoint edges_from (first prev : point) (r : ring) : list (point * point) :=
  match r with
  | [] => [(prev, first)]
  | p :: t => (prev, p) :: edges_from first p t
  end.

Definition edges (r : ring) : list (point * point) :=
  match r with
  | [] => []
  | p :: t => edges_from p p t
  end.

(** Shoelace sum; the enclosed area is half its absolute value. *)
Definition shoelace (r : ring) : Q :=
  fold_right (fun '((ax, ay), (bx, by_)) s => ax * by_ - bx * ay + s) 0
             (edges r).

Definition ring_area (r : ring) : Q := Qabs (shoelace r) / 2.

(** [Polygon(r).area] for a bare ring, and [.area] of a polygon. *)
Definition area (p : Polygon) : Q :=
  fold_left (fun a h => a - ring_area h) (interiors p) (ring_area (exterior p)).

Definition box_area (b : Box) : Q :=
  Qabs ((maxx b - minx b) * (maxy b - miny b)).

(** [word_box.centroid] *)
Definition centroid (b : Box) : point :=
  ((minx b + maxx b) / 2, (miny b + maxy b) / 2).

(** Where a point lies with respect to a ring or a polygon (the three
    point sets of the DE-9IM model that shapely's predicates are defined
    on). *)
Inductive Location : Type := Interior | Boundary | Exterior.

#[global] Instance Location_eq_dec : EqDecision Location.
Proof. solve_decision. Defined.

Definition on_segment (p a b : point) : bool :=
  let '(px, py) := p in
  let '(ax, ay) := a in
  let '(bx, by_) := b in
  Qeq_bool ((bx - ax) * (py - ay)) ((by_ - ay) * (px - ax))
  && Qle_bool (Qmin ax bx) px && Qle_bool px (Qmax ax bx)
  && Qle_bool (Qmin ay by_) py && Qle_bool py (Qmax ay by_).

(** Does the horizontal ray from [p] towards +x cross the edge [a b]? *)
Definition ray_crosses (p a b : point) : bool :=
  let '(px, py) := p in
  let '(ax, ay) := a in
  let '(bx, by_) := b in
  negb (Bool.eqb (Qlt_bool py ay) (Qlt_bool py by_))
  && Qlt_bool px ((bx - ax) * (py - ay) / (by_ - ay) + ax).

Definition locate_ring (r : ring) (p : point) : Location :=
  if existsb (fun '(a, b) => on_segment p a b) (edges r) then Boundary
  else if Nat.odd (length (filter (fun '(a, b) => ray_crosses p a b = true) (edges r)))
  then Interior else Exterior.

(** A point inside a hole is outside the polygon; a point on the rim of a
    hole is on the polygon's boundary. *)
Fixpoint locate_holes (holes : list ring) (p : point) : Location :=
  match holes with
  | [] => Interior
  | h :: t =>
      match locate_ring h p with
      | Interior => Exterior
      | Boundary => Boundary
      | Exterior => locate_holes t p
      end
  end.

Definition locate (g : Polygon) (p : point) : Location :=
  match locate_ring (exterior g) p with
  | Interior => locate_holes (interiors g) p
  | l => l
  end.

(** [geom.contains(point)].  shapely documents [a.contains(b)] as: no
    point of [b] lies in the exterior of [a], and at least one point of the
    interior of [b] lies in the interior of [a].  For a point [b] that is:
    the point lies in the interior of [a]; a point of the boundary is not
    contained. *)
Definition contains (g : Polygon) (p : point) : bool :=
  bool_decide (locate g p = Interior).

(** Where GEOS puts a point with respect to a collection of polygons, from
    its place in each member: on the boundary when it is on the boundary of
    an odd number of members; otherwise inside when it is inside, or on the
    boundary, of some member; otherwise outside.  For the disjoint parts of
    a union the point is in or on at most one member, and this is its place
    in that member. *)
Definition multi_locate (geoms : list Polygon) (p : point) : Location :=
  let on_boundary := length (filter (fun g => locate g p = Boundary) geoms) in
  let is_in := existsb (fun g => contains g p) geoms in
  if Nat.odd on_boundary then Boundary
  else if (0 <? on_boundary)%nat || is_in then Interior
  else Exterior.

(** [MultiPolygon(geoms).contains(point)]: the point lies in the interior
    of the collection. *)
Definition multi_contains (geoms : list Polygon) (p : point) : bool :=
  bool_decide (multi_locate geoms p = Interior).

(** The point lies in or on at most one member of the collection, as it
    does when the members are the disjoint parts of a union. *)
Definition separated_at (geoms : list Polygon) (p : point) : Prop :=
  (length (filter (fun g => locate g p <> Exterior) geoms) <= 1)%nat.

(** [ops.transform(func, geom)]: [func] applied to every coordinate. *)
Definition transform (func : Q -> Q -> point) (g : Polygon) : Polygon :=
  let on_ring := map (fun '(x, y) => func x y) in
  {| exterior := on_ring (exterior g);
     interiors := map on_ring (interiors g) |}.

(** [ring.bounds] = (minx, miny, maxx, maxy) *)
Definition bounds (r : ring) : Q * Q * Q * Q :=
  match r with
  | [] => (0, 0, 0, 0)
  | (x, y) :: t =>
      fold_left (fun '(x0, y0, x1, y1) '(px, py) =>
                   (Qmin x0 px, Qmin y0 py, Qmax x1 px, Qmax y1 py))
                t (x, y, x, y)
  end.

(** Every point of the (closed) rectangle. *)
Definition in_box (b : Box) (p : point) : Prop :=
  Qmin (minx b) (maxx b) <= fst p /\ fst p <= Qmax (minx b) (maxx b) /\
  Qmin (miny b) (maxy b) <= snd p /\ snd p <= Qmax (miny b) (maxy b).

End Geometry.
Export Geometry.

(** ** External collaborators

    Python built-ins and library calls whose code is not part of the
    repository.  The development is parametric in them. *)

Inductive CapStyle : Type := CAP_round | CAP_flat | CAP_square.
Inductive JoinStyle : Type := JOIN_round | JOIN_mitre | JOIN_bevel.

Record Env : Type := mkEnv {
  (** [float(s)]; [None] stands for its [ValueError] *)
  py_float : string -> option Q;
  (** [int(s)]; [None] stands for its [ValueError] *)
  py_int : string -> option Z;
  (** [raw.decode("utf-8").split()]; [None] stands for [UnicodeDecodeError] *)
  decode_split : string -> option (list string);
  (** [LineString(points).buffer(distance, cap_style, join_style)] *)
  buffer : list point -> Q -> CapStyle -> JoinStyle -> Polygon;
  (** [ops.unary_union(lines)] *)
  unary_union : list Polygon -> Geom;
  (** [MultiPolygon(geoms).intersection(word_box).area] *)
  intersection_area : list Polygon -> Box -> Q;
  (** [fitz.Rect(x0, y0, x1, y1).round()] *)
  round_rect : Q * Q * Q * Q -> Z * Z * Z * Z
}.

(** ** parsing.py *)

Module Parsing.

Definition YELLOW : list string := ["1"; "0.952941"; "0.658824"].

(** [bytes.__contains__]: substring search. *)
Fixpoint starts_with (p s : string) : bool :=
  match p, s with
  | EmptyString, _ => true
  | String a p', String b s' => Ascii.eqb a b && starts_with p' s'
  | String _ _, EmptyString => false
  end.

Fixpoint occurs_in (p s : string) : bool :=
  starts_with p s
  || match s with
     | EmptyString => false
     | String _ s' => occurs_in p s'
     end.

Definition content_contains_highlight (content : string) : bool :=
  occurs_in (join " " (YELLOW ++ ["RG"])) content.

Definition PATH_OPS : list string :=
  [ "w"; "J"; "j"; "M"; "d"; "ri"; "i"; "gs"; "q"; "Q"; "cm"; "m"; "l"; "c";
    "v"; "y"; "h"; "re"; "S"; "s"; "f"; "F"; "f*"; "B"; "B*"; "b"; "b*";
    "n"; "W"; "W*"; "BT"; "ET"; "Tc"; "Tw"; "Tz"; "TL"; "Tf"; "Tr"; "Ts";
    "i"; "Td"; "TD"; "Tm"; "T*"; "Tj"; "TJ"; "'"; String (Ascii.ascii_of_nat 34) "";
    "d0"; "d1"; "CS"; "cs"; "SC"; "SCN"; "sc"; "scn"; "G"; "g"; "RG"; "rg";
    "K"; "k"; "sh"; "BI"; "ID"; "EI"; "Do"; "MP"; "DP"; "BMC"; "BDC"; "EMC";
    "BX"; "EX" ].

Definition operation : Type := string * list string.

(** The loop of [tokenize_graphics] over the tokens of the stream, with
    its [arg_stack]. *)
Fixpoint tokenize_from (arg_stack : list string) (tokens : list string)
    : list operation :=
  match tokens with
  | [] => []
  | token :: rest =>
      if bool_decide (token ∈ PATH_OPS)
      then (token, arg_stack) :: tokenize_from [] rest
      else tokenize_from (arg_stack ++ [token]) rest
  end.

Definition tokenize (tokens : list string) : list operation :=
  tokenize_from [] tokens.

(** A token that is pushed as an argument. *)
Definition literal (token : string) : Prop := token ∉ PATH_OPS.

(** What a record stood for in the stream: its arguments, then its
    operator. *)
Definition spelled (o : operation) : list string := snd o ++ [fst o].

Definition tokenize_graphics (E : Env) (raw_graphics_content : string)
    : result (list operation) :=
  match decode_split E raw_graphics_content with
  | Some tokens => Ok (tokenize tokens)
  | None => Raise UnicodeDecodeError
  end.

Definition CAP_STYLES : gmap Z CapStyle :=
  {[ 1%Z := CAP_round; 2%Z := CAP_flat; 3%Z := CAP_square ]}.

Definition JOIN_STYLES : gmap Z JoinStyle :=
  {[ 1%Z := JOIN_round; 2%Z := JOIN_mitre; 3%Z := JOIN_bevel ]}.

(** The local variables of [highlighter_lines].  [current_line] is [None],
    or a list whose first element is [None] until an [m] sets it. *)
Record state : Type := mkState {
  current_line : option (list (option point));
  width : option Q;
  cap_style : option CapStyle;
  join_style : option JoinStyle
}.

Definition initial : state :=
  {| current_line := Some []; width := None;
     cap_style := None; join_style := None |}.

(** Python truthiness of [current_line]: a non-empty list. *)
Definition armed (st : state) : bool :=
  match current_line st with
  | Some (_ :: _) => true
  | _ => false
  end.

(** The record that opens a highlighter stroke. *)
Definition arming (o : operation) : Prop := o = ("RG", YELLOW).

Section Interpreter.
Variable E : Env.

(** [args[i]] *)
Definition arg (args : list string) (i : nat) : result string :=
  match args !! i with
  | Some a => Ok a
  | None => Raise IndexError
  end.

Definition float_arg (args : list string) (i : nat) : result Q :=
  let* a := arg args i in
  match py_float E a with
  | Some q => Ok q
  | None => Raise (ValueError "could not convert string to float")
  end.

Definition int_arg (args : list string) (i : nat) : result Z :=
  let* a := arg args i in
  match py_int E a with
  | Some n => Ok n
  | None => Raise (ValueError "invalid literal for int()")
  end.

Definition lookup_style {S : Type} (table : gmap Z S) (i : Z) : result S :=
  match table !! i with
  | Some s => Ok s
  | None => Raise (KeyErrorInt i)
  end.

Definition assert (b : bool) (msg : string) : result unit :=
  if b then Ok tt else Raise (AssertionError msg).

(** [LineString(current_line)]: every element has to be a point. *)
Fixpoint line_string (l : list (option point)) : result (list point) :=
  match l with
  | [] => Ok []
  | None :: _ => Raise TypeError
  | Some p :: t => let* ps := line_string t in Ok (p :: ps)
  end.

(** One turn of the loop body: the new local variables and the shape
    yielded, if any. *)
Definition step (st : state) (o : operation) : result (state * option Polygon) :=
  let '(op, args) := o in
  if decide ((op, args) = ("RG", YELLOW)) then
    Ok ({| current_line := Some [None]; width := width st;
           cap_style := cap_style st; join_style := join_style st |}, None)
  else
    match current_line st with
    | Some (first :: rest) =>
        if decide (op = "m") then
          let* x := float_arg args 0 in
          let* y := float_arg args 1 in
          Ok ({| current_line := Some (Some (x, y) :: rest); width := width st;
                 cap_style := cap_style st; join_style := join_style st |}, None)
        else if decide (op = "j") then
          let* i_join_style := int_arg args 0 in
          let* s := lookup_style JOIN_STYLES i_join_style in
          Ok ({| current_line := current_line st; width := width st;
                 cap_style := cap_style st; join_style := Some s |}, None)
        else if decide (op = "J") then
          let* i_cap_style := int_arg args 0 in
          let* s := lookup_style CAP_STYLES i_cap_style in
          Ok ({| current_line := current_line st; width := width st;
                 cap_style := Some s; join_style := join_style st |}, None)
        else if decide (op = "w") then
          let* w := float_arg args 0 in
          Ok ({| current_line := current_line st; width := Some w;
                 cap_style := cap_style st; join_style := join_style st |}, None)
        else if decide (op = "l") then
          let* x := float_arg args 0 in
          let* y := float_arg args 1 in
          Ok ({| current_line := Some (first :: rest ++ [Some (x, y)]);
                 width := width st;
                 cap_style := cap_style st; join_style := join_style st |}, None)
        else if decide (op = "S") then
          let* _ := assert (bool_decide (is_Some (width st)))
                      "Expected to see a width for the stroke before stroke end." in
          let* _ := assert (bool_decide (is_Some (cap_style st)))
                      "Expected to see a cap style before stroke end." in
          let* _ := assert (bool_decide (is_Some (join_style st)))
                      "Expected to see a join style before stroke end." in
          let* _ := assert (bool_decide (1 < length (first :: rest))%nat)
                      "Invalid line, not enough points." in
          match width st, cap_style st, join_style st with
          | Some w, Some c, Some j =>
              let* ps := line_string (first :: rest) in
              Ok ({| current_line := None; width := None;
                     cap_style := None; join_style := None |},
                  Some (buffer E ps (w / 2)%Q c j))
          | _, _, _ => Raise TypeError
          end
        else if decide (op = "cm") then
          if decide (args = ["1"; "0"; "0"; "1"; "0"; "0"]) then Ok (st, None)
          else Raise (NotImplementedError
                 "Transform matrices are not implemented, but shouldn't be hard to implement")
        else Ok (st, None)
    | _ => Ok (st, None)
    end.

(** The generator: the shapes yielded before it ends or raises, and the
    exception it raised, if any. *)
Fixpoint run (st : state) (ops : list operation) : list Polygon * option exn :=
  match ops with
  | [] => ([], None)
  | o :: rest =>
      match step st o with
      | Raise e => ([], Some e)
      | Ok (st', out) =>
          let '(shapes, e) := run st' rest in
          (match out with Some s => s :: shapes | None => shapes end, e)
      end
  end.

Definition highlighter_lines (raw_graphics_content : string)
    : list Polygon * option exn :=
  match tokenize_graphics E raw_graphics_content with
  | Ok ops => run initial ops
  | Raise e => ([], Some e)
  end.

End Interpreter.

End Parsing.

(** ** extract.py *)

Module Extract.
Import Parsing.

Inductive WordSelectionMethod : Type := CENTROID | AREA_RATIO.

(** [WordSelectionMethod[name]]: lookup of an enumeration member by name. *)
Definition WordSelectionMethod_getitem (name : string) : result WordSelectionMethod :=
  if decide (name = "CENTROID") then Ok CENTROID
  else if decide (name = "AREA_RATIO") then Ok AREA_RATIO
  else Raise (KeyError name).

(** A name that is not the name of a member. *)
Definition unknown_policy (n : string) : Prop :=
  n <> "CENTROID" /\ n <> "AREA_RATIO".

(** The value passed as [method]: a member of the enumeration, or any
    other Python value. *)
Inductive method_value : Type :=
  | member (m : WordSelectionMethod)
  | other_value (repr : string).

Definition DEFAULT_AREA_RATIO : Q := 1 # 2.

Inductive HighlightType : Type := TEXTUAL | SELECTION.

(** [fitz.Rect]: indices 0..3 are x0, y0, x1, y1, so [rect[-1]] is [y1]. *)
Record Rect : Type := mkRect { x0 : Q; y0 : Q; x1 : Q; y1 : Q }.

Definition rect_last (r : Rect) : Q := y1 r.

(** A row of [page.getText("words")], without its three trailing indices. *)
Record Word : Type := mkWord { wx0 : Q; wy0 : Q; wx1 : Q; wy1 : Q; text : string }.

(** What the pipeline reads of a page.  An entry of [contents] is the
    payload of one content object, [None] when it is not a stream. *)
Record Page : Type := mkPage {
  number : Z;
  CropBox : Rect;
  contents : list (option string);
  words : list Word
}.

(** The result of [page.getPixmap(clip=..., matrix=fitz.Matrix(z, z))]. *)
Record Pixmap : Type := mkPixmap {
  pix_page : Z;
  pix_clip : Z * Z * Z * Z;
  pix_zoom : Q
}.

Definition classify_highlight (highlight_poly : Polygon)
    (clipping_area_threshold : Q) : HighlightType :=
  match interiors highlight_poly with
  | [hole] =>
      if Qlt_bool clipping_area_threshold (area (mkPolygon hole []))
      then SELECTION else TEXTUAL
  | _ => TEXTUAL
  end.

Fixpoint classify_highlights (polys : list Polygon) (clipping_area_threshold : Q)
    : list Polygon * list Polygon :=
  match polys with
  | [] => ([], [])
  | poly :: rest =>
      let '(text_highlights, selection_highlights) :=
        classify_highlights rest clipping_area_threshold in
      match classify_highlight poly clipping_area_threshold with
      | TEXTUAL => (poly :: text_highlights, selection_highlights)
      | SELECTION => (text_highlights, poly :: selection_highlights)
      end
  end.

Definition to_fitz_coord (page : Page) (x y : Q) : point :=
  (x, (rect_last (CropBox page) - y)%Q).

Definition coordinate_transformer (page : Page) : Polygon -> Polygon :=
  transform (to_fitz_coord page).

Definition normalize_polys (geometry : Geom) : result (list Polygon) :=
  match geometry with
  | GMultiPolygon geoms => Ok geoms
  | GPolygon p => Ok [p]
  | GOther geom_type => Raise (ValueError ("Unexpected geometry type: " +:+ geom_type))
  end.

Section Pipeline.
Variable E : Env.

Definition word_is_highlighted (method : method_value)
    (highlight_poly : list Polygon) (word_box : Box) : result bool :=
  match method with
  | member CENTROID => Ok (multi_contains highlight_poly (centroid word_box))
  | member AREA_RATIO =>
      let overlap_area := intersection_area E highlight_poly word_box in
      if Qeq_bool (box_area word_box) 0 then Raise ZeroDivisionError
      else Ok (Qlt_bool DEFAULT_AREA_RATIO (overlap_area / box_area word_box)%Q)
  | other_value repr => Raise (ValueError ("Unknown word selection method: " +:+ repr))
  end.

Fixpoint extract_streams (cs : list (option string)) : result (list Polygon) :=
  match cs with
  | [] => Ok []
  | None :: rest => extract_streams rest
  | Some content :: rest =>
      if content_contains_highlight content then
        match highlighter_lines E content with
        | (shapes, None) => let* polys := extract_streams rest in Ok (shapes ++ polys)
        | (_, Some e) => Raise e
        end
      else extract_streams rest
  end.

Definition extract_highlight_lines (page : Page) : result (list Polygon) :=
  let* polys := extract_streams (contents page) in
  Ok (map (coordinate_transformer page) polys).

Definition merge_highlight_lines (lines : list Polygon) : result (list Polygon) :=
  normalize_polys (unary_union E lines).

Definition extract_clips (selection_polys : list Polygon) (page : Page)
    (clip_zoom : Q) : list Pixmap :=
  map (fun selection_poly =>
         {| pix_page := number page;
            pix_clip := round_rect E (bounds (exterior selection_poly));
            pix_zoom := clip_zoom |})
      selection_polys.

Definition extract_text_highlights (text_highlights : list Polygon)
    (page : Page) (word_selection_method : method_value) (max_skip_len : Z)
    : result (list string) :=
  let word_boxes :=
    map (fun w => (text w, mkBox (wx0 w) (wy0 w) (wx1 w) (wy1 w))) (words page) in
  let* tagged :=
    mapM (fun '(word, word_box) =>
            let* is_selected :=
              word_is_highlighted word_selection_method text_highlights word_box in
            Ok (word, is_selected))
         word_boxes in
  Ok (RunMerger.run_merger max_skip_len tagged).

(** [d[k].extend(new)] on a [defaultdict(list)] *)
Definition extend {V : Type} (d : gmap Z (list V)) (k : Z) (new : list V)
    : gmap Z (list V) :=
  <[k := default [] (d !! k) ++ new]> d.

(** The body of the page loop of [extract_highlights] (with
    [debug_render] off), on the two accumulators. *)
Definition process_page (max_skip_len : Z) (word_selection_method : string)
    (clip_area_threshold clip_zoom : Q)
    (acc : gmap Z (list string) * gmap Z (list Pixmap)) (page : Page)
    : result (gmap Z (list string) * gmap Z (list Pixmap)) :=
  let '(page_text_highlights, page_clips) := acc in
  let* highlight_lines := extract_highlight_lines page in
  match highlight_lines with
  | [] => Ok acc
  | _ :: _ =>
      let* highlight_polys := merge_highlight_lines highlight_lines in
      let '(text_highlight_polys, selection_highlight_polys) :=
        classify_highlights highlight_polys clip_area_threshold in
      let page_clips :=
        match selection_highlight_polys with
        | [] => page_clips
        | _ :: _ =>
            extend page_clips (number page + 1)%Z
                   (extract_clips selection_highlight_polys page clip_zoom)
        end in
      match text_highlight_polys with
      | [] => Ok (page_text_highlights, page_clips)
      | _ :: _ =>
          let* method := WordSelectionMethod_getitem word_selection_method in
          let* text_highlights :=
            extract_text_highlights text_highlight_polys page
                                    (member method) max_skip_len in
          Ok (extend page_text_highlights (number page + 1)%Z text_highlights,
              page_clips)
      end
  end.

Fixpoint pages_loop (max_skip_len : Z) (word_selection_method : string)
    (clip_area_threshold clip_zoom : Q)
    (acc : gmap Z (list string) * gmap Z (list Pixmap)) (doc : list Page)
    : result (gmap Z (list string) * gmap Z (list Pixmap)) :=
  match doc with
  | [] => Ok acc
  | page :: rest =>
      let* acc' := process_page max_skip_len word_selection_method
                                clip_area_threshold clip_zoom acc page in
      pages_loop max_skip_len word_selection_method
                 clip_area_threshold clip_zoom acc' rest
  end.

Definition extract_highlights (doc : list Page) (max_skip_len : Z)
    (word_selection_method : string) (clip_area_threshold clip_zoom : Q)
    : result (gmap Z (list string) * gmap Z (list Pixmap)) :=
  pages_loop max_skip_len word_selection_method clip_area_threshold clip_zoom
             (∅, ∅) doc.

(** The Textual polygons of a page, as the loop computes them before it
    looks at the policy name. *)
Definition textual_polys (clip_area_threshold : Q) (page : Page)
    : result (list Polygon) :=
  let* highlight_lines := extract_highlight_lines page in
  match highlight_lines with
  | [] => Ok []
  | _ :: _ =>
      let* highlight_polys := merge_highlight_lines highlight_lines in
      Ok (fst (classify_highlights highlight_polys clip_area_threshold))
  end.

End Pipeline.

End Extract.

(** ** A small environment to run the definitions on examples

    Decimal literals without exponent, tokens separated by blanks and line
    breaks, and stand-ins for the geometry calls. *)

Module Sample.
Import Parsing Extract.

Definition digit_of (c : ascii) : option Z :=
  let n := Z.of_nat (nat_of_ascii c) in
  if bool_decide (48 <= n <= 57)%Z then Some (n - 48)%Z else None.

Fixpoint digits_from (acc : Z) (s : string) : option Z :=
  match s with
  | EmptyString => Some acc
  | String c s' =>
      match digit_of c with
      | Some d => digits_from (acc * 10 + d)%Z s'
      | None => None
      end
  end.

Definition digits (s : string) : option Z :=
  match s with
  | EmptyString => None
  | String _ _ => digits_from 0 s
  end.

Definition dec_int (s : string) : option Z :=
  match s with
  | String "-" s' => Z.opp <$> digits s'
  | String "+" s' => digits s'
  | _ => digits s
  end.

(** The text before the first dot, and the text after it if there is one. *)
Fixpoint split_dot (s : string) : string * option string :=
  match s with
  | EmptyString => (EmptyString, None)
  | String "." s' => (EmptyString, Some s')
  | String c s' => let '(i, f) := split_dot s' in (String c i, f)
  end.

Definition dec_unsigned (s : string) : option Q :=
  match split_dot s with
  | (i, None) => (fun n => inject_Z n) <$> digits i
  | (i, Some f) =>
      match digits i, digits f with
      | Some n, Some m =>
          Some (inject_Z n + inject_Z m / inject_Z (10 ^ Z.of_nat (String.length f)))%Q
      | _, _ => None
      end
  end.

Definition dec_float (s : string) : option Q :=
  match s with
  | String "-" s' => Qopp <$> dec_unsigned s'
  | _ => dec_unsigned s
  end.

Definition is_blank (c : ascii) : bool :=
  let n := nat_of_ascii c in
  bool_decide (n = 32 \/ 9 <= n <= 13)%nat.

Fixpoint split_from (cur : string) (s : string) : list string :=
  let flush := match cur with EmptyString => [] | _ => [cur] end in
  match s with
  | EmptyString => flush
  | String c s' =>
      if is_blank c then flush ++ split_from EmptyString s'
      else split_from (cur +:+ String c EmptyString) s'
  end.

(** The rectangle around the points, grown by [d] on every side. *)
Definition box_buffer (ps : list point) (d : Q) (_ : CapStyle) (_ : JoinStyle)
    : Polygon :=
  let '(ax, ay, bx, by_) := bounds ps in
  {| exterior := [ (ax - d, ay - d); (bx + d, ay - d); (bx + d, by_ + d);
                   (ax - d, by_ + d); (ax - d, ay - d) ]%Q;
     interiors := [] |}.

Definition env : Env :=
  {| py_float := dec_float;
     py_int := dec_int;
     decode_split := fun raw => Some (split_from EmptyString raw);
     buffer := box_buffer;
     unary_union := GMultiPolygon;
     intersection_area := fun _ _ => 0%Q;
     round_rect := fun '(ax, ay, bx, by_) =>
                     (Qfloor ax, Qfloor ay, Qceiling bx, Qceiling by_) |}.


(** *** Shapes and pages used in the examples *)

Section Shapes.
Local Open Scope Q_scope.

(** A ring drawn around the page area (0,0)-(40,40), with the square
  (10,10)-(20,20) of area 100 as its only hole. *)
Definition loop_with_hole : Polygon :=
{| exterior := [(0, 0); (40, 0); (40, 40); (0, 40); (0, 0)];
   interiors := [[(10, 10); (20, 10); (20, 20); (10, 20); (10, 10)]] |}.

(** The square (0,0)-(10,10) as the only Textual polygon, and three word
  boxes: inside it, with the centroid (10,3) on its right edge, and
  outside it. *)
Definition square : Polygon :=
{| exterior := [(0, 0); (10, 0); (10, 10); (0, 10); (0, 0)]; interiors := [] |}.
Definition word_inside : Box := mkBox 2 2 4 4.
Definition word_on_edge : Box := mkBox 8 2 12 4.
Definition word_outside : Box := mkBox 12 2 14 4.

(** A page whose crop box starts at y = 10. *)
Definition shifted_page : Page :=
{| number := 0; CropBox := mkRect 0 10 100 110; contents := []; words := [] |}.

(** A page whose only stroke is black, and a page with one yellow
  stroke. *)
Definition plain_page : Page :=
{| number := 0; CropBox := mkRect 0 0 100 100;
   contents := [Some "q 0 0 0 RG 2 w 1 J 1 j 0 0 m 10 0 l S Q"];
   words := [mkWord 0 0 10 10 "word"] |}.

Definition marked_page : Page :=
{| number := 1; CropBox := mkRect 0 0 100 100;
   contents := [Some "q 1 0.952941 0.658824 RG 10 w 1 J 1 j 0 95 m 10 95 l S Q"];
   words := [mkWord 0 0 10 10 "word"] |}.

End Shapes.

End Sample.

(** ** Decidable equality of the classification *)

Module GeometryRel.
Import Extract.

#[global] Instance HighlightType_eq_dec : EqDecision HighlightType.
Proof. solve_decision. Defined.

End GeometryRel.

(** ** Sequences of runs whose neighbours differ in their flag *)

Fixpoint alternating {K B : Type} (rs : list (K * B)) : Prop :=
  match rs with
  | [] => True
  | r1 :: t =>
      match t with
      | [] => True
      | r2 :: _ => fst r1 <> fst r2 /\ alternating t
      end
  end.

(** * Properties *)

(** ** [groupby] on blocks of equal key *)

Section GroupByFacts.
Context {A K : Type} `{EqDecision K} (key : A -> K).

Lemma groupby_from_same (k : K) (g l1 l2 : list A) :
  Forall (fun x => key x = k) l1 ->
  groupby_from key k g (l1 ++ l2) = groupby_from key k (g ++ l1) l2.
Proof.
  intros H. revert g. induction H as [|x l1 Hx _ IH]; intros g; simpl.
  - by rewrite app_nil_r.
  - rewrite decide_True by done. rewrite IH. by rewrite <- app_assoc.
Qed.

Lemma groupby_from_all (k : K) (g l : list A) :
  Forall (fun x => key x = k) l ->
  groupby_from key k g l = [(k, g ++ l)].
Proof.
  intros H. rewrite <- (app_nil_r l) at 1.
  by rewrite groupby_from_same.
Qed.

Lemma groupby_all (k : K) (l : list A) :
  l <> [] -> Forall (fun x => key x = k) l -> groupby key l = [(k, l)].
Proof.
  destruct l as [|x t]; [done|]. intros _ H.
  inversion H as [|? ? Hx Ht]; subst. simpl.
  by rewrite groupby_from_all.
Qed.

(** A block of key [k] followed by an element of another key is a group
    of its own. *)
Lemma groupby_break (k : K) (l1 : list A) (y : A) (l2 : list A) :
  l1 <> [] -> Forall (fun x => key x = k) l1 -> key y <> k ->
  groupby key (l1 ++ y :: l2) = (k, l1) :: groupby key (y :: l2).
Proof.
  destruct l1 as [|x t]; [done|]. intros _ H Hy.
  inversion H as [|? ? Hx Ht]; subst. simpl.
  rewrite groupby_from_same by done. simpl.
  by rewrite decide_False.
Qed.

(** The groups, put back together, are the input. *)
Lemma groupby_from_concat (k : K) (g l : list A) :
  concat (map snd (groupby_from key k g l)) = g ++ l.
Proof.
  revert k g. induction l as [|x t IH]; intros k g; simpl.
  - by rewrite !app_nil_r.
  - destruct (decide (key x = k)); simpl; rewrite IH.
    + by rewrite <- app_assoc.
    + done.
Qed.
End GroupByFacts.

(** ** The run merger *)

Module RunMergerFacts.
Import RunMerger.

(** Evaluates [merged_runs] once the runs are known. *)
Ltac settle_groups :=
  cbn; repeat (case_decide; try congruence); cbn; rewrite ?app_nil_r.

(** The three runs of a highlighted block, a gap and a highlighted block. *)
Lemma runs_block_gap_block (a g b : list tagged) :
  a <> [] -> g <> [] -> b <> [] ->
  highlighted a -> unhighlighted g -> highlighted b ->
  runs (a ++ g ++ b)
  = [(true, map fst a); (false, map fst g); (true, map fst b)].
Proof.
  intros Ha Hg Hb Pa Pg Pb. unfold runs.
  destruct g as [|y g']; [done|]. destruct b as [|z b']; [done|].
  rewrite <- app_comm_cons.
  rewrite (groupby_break snd true a y) by (try done; inversion Pg; subst; congruence).
  change (y :: g' ++ z :: b') with ((y :: g') ++ z :: b').
  rewrite (groupby_break snd false (y :: g') z) by (try done; inversion Pb; subst; congruence).
  by rewrite (groupby_all snd true (z :: b')).
Qed.

Lemma runs_block_gap (a g : list tagged) :
  a <> [] -> g <> [] -> highlighted a -> unhighlighted g ->
  runs (a ++ g) = [(true, map fst a); (false, map fst g)].
Proof.
  intros Ha Hg Pa Pg. unfold runs. destruct g as [|y g']; [done|].
  rewrite (groupby_break snd true a y) by (try done; inversion Pg; subst; congruence).
  by rewrite (groupby_all snd false (y :: g')).
Qed.

Lemma runs_one_block (k : bool) (a : list tagged) :
  a <> [] -> Forall (fun w => snd w = k) a -> runs a = [(k, map fst a)].
Proof. intros Ha Pa. unfold runs. by rewrite (groupby_all snd k a). Qed.


(** A gap of more than [max_skip_len] words separates the two blocks and
    is left out. *)
Lemma merge_splits (max_skip_len : Z) (a g b : list tagged) :
  a <> [] -> b <> [] ->
  highlighted a -> unhighlighted g -> highlighted b ->
  (max_skip_len < Z.of_nat (length g))%Z -> (0 <= max_skip_len)%Z ->
  merge max_skip_len (a ++ g ++ b) = [map fst a; map fst b].
Proof.
  intros Ha Hb Pa Pg Pb Hlen Hk. unfold merge.
  assert (g <> []) by (intros ->; simpl in Hlen; lia).
  rewrite runs_block_gap_block by done.
  unfold marked_skips. simpl. rewrite length_map.
  assert (Hn : ~ (Z.of_nat (length g) <= max_skip_len)%Z) by lia.
  rewrite (bool_decide_false _ Hn).
  by settle_groups.
Qed.

(** Words after the last highlighted word, when there are at most
    [max_skip_len] of them, are part of the last run. *)
Lemma merge_trailing_gap (max_skip_len : Z) (a g : list tagged) :
  a <> [] -> highlighted a -> unhighlighted g ->
  (Z.of_nat (length g) <= max_skip_len)%Z ->
  merge max_skip_len (a ++ g) = [map fst (a ++ g)].
Proof.
  intros Ha Pa Pg Hlen. unfold merge.
  destruct (decide (g = [])) as [->|Hg].
  - rewrite app_nil_r, (runs_one_block true a) by done.
    by settle_groups.
  - rewrite runs_block_gap by done.
    unfold marked_skips. simpl. rewrite length_map.
    rewrite (bool_decide_true _ Hlen).
    settle_groups. by rewrite !map_app.
Qed.

(** A page without a highlighted word: its words come out as one run
    exactly when there are between 1 and [max_skip_len] of them. *)
Lemma merge_unhighlighted (max_skip_len : Z) (ws : list tagged) :
  unhighlighted ws ->
  merge max_skip_len ws
  = if bool_decide (ws <> [] /\ (Z.of_nat (length ws) <= max_skip_len)%Z)
    then [map fst ws] else [].
Proof.
  intros Pw. unfold merge.
  destruct (decide (ws = [])) as [->|Hw].
  - rewrite bool_decide_false; [done | tauto].
  - rewrite (runs_one_block false ws) by done.
    unfold marked_skips. simpl. rewrite length_map.
    destruct (decide (Z.of_nat (length ws) <= max_skip_len)%Z) as [Hlen|Hlen].
    + rewrite (bool_decide_true _ Hlen), bool_decide_true by done.
      by settle_groups.
    + rewrite (bool_decide_false _ Hlen), bool_decide_false by tauto. done.
Qed.

End RunMergerFacts.

Module RunMergerClaims.
Import RunMerger RunMergerFacts.



(** C2.  The merger at a page whose two highlighted words are followed by
    one last unhighlighted word, with [max_skip_len = 3]: the trailing
    word is part of the only run. *)
Theorem trailing_gap_evaluated :
  run_merger 3 [("alpha", true); ("beta", true); ("gamma", false)]
  = ["alpha beta gamma"].
Proof. reflexivity. Qed.

(** C3.  The merger at a page of two words, neither highlighted, with
    [max_skip_len = 3]: the two words come out as a run. *)
Theorem unhighlighted_short_page_evaluated :
  run_merger 3 [("alpha", false); ("beta", false)] = ["alpha beta"].
Proof. reflexivity. Qed.

End RunMergerClaims.

(** ** The tokenizer *)

Module TokenizerFacts.
Import Parsing.

Lemma literal_checked (token : string) :
  bool_decide (token ∈ PATH_OPS) = false -> literal token.
Proof. apply bool_decide_eq_false. Qed.

Lemma operator_checked (token : string) :
  bool_decide (token ∈ PATH_OPS) = true -> token ∈ PATH_OPS.
Proof. apply bool_decide_eq_true. Qed.

Lemma tokenize_from_operators (arg_stack tokens : list string) :
  map fst (tokenize_from arg_stack tokens) = filter (.∈ PATH_OPS) tokens.
Proof.
  revert arg_stack. induction tokens as [|t ts IH]; intros stack; [done|].
  simpl. case_bool_decide as Hop.
  - rewrite filter_cons_True by done. simpl. by rewrite IH.
  - rewrite filter_cons_False by done. apply IH.
Qed.

Lemma tokenize_from_literals (arg_stack tokens : list string) :
  Forall literal arg_stack ->
  Forall (fun o => Forall literal (snd o)) (tokenize_from arg_stack tokens).
Proof.
  revert arg_stack. induction tokens as [|t ts IH]; intros stack Hs; simpl.
  - constructor.
  - case_bool_decide as Hop.
    + constructor; [done|]. apply IH. constructor.
    + apply IH. apply Forall_app. split; [done|]. by constructor.
Qed.

Lemma tokenize_from_emit (arg_stack lits : list string) (op : string)
    (rest : list string) :
  Forall literal lits -> op ∈ PATH_OPS ->
  tokenize_from arg_stack (lits ++ op :: rest)
  = (op, arg_stack ++ lits) :: tokenize_from [] rest.
Proof.
  intros Hl Hop. revert arg_stack.
  induction Hl as [|t lits Ht _ IH]; intros stack; simpl.
  - rewrite bool_decide_true by done. by rewrite app_nil_r.
  - rewrite bool_decide_false by done. rewrite IH. by rewrite <- app_assoc.
Qed.

Lemma tokenize_from_no_operator (arg_stack lits : list string) :
  Forall literal lits -> tokenize_from arg_stack lits = [].
Proof.
  intros Hl. revert arg_stack.
  induction Hl as [|t lits Ht _ IH]; intros stack; simpl; [done|].
  by rewrite bool_decide_false.
Qed.

(** The stream is the records as they were spelled, followed by the
    literals after the last operator. *)
Lemma tokenize_from_stream (arg_stack tokens : list string) :
  Forall literal arg_stack ->
  exists trailing,
    Forall literal trailing /\
    arg_stack ++ tokens
    = concat (map spelled (tokenize_from arg_stack tokens)) ++ trailing.
Proof.
  revert arg_stack. induction tokens as [|t ts IH]; intros stack Hs.
  - exists stack. split; [done|]. by rewrite app_nil_r.
  - simpl. case_bool_decide as Hop.
    + destruct (IH []) as (tr & Htr & Heq); [constructor|].
      exists tr. split; [done|]. simpl in *. unfold spelled at 1. simpl.
      rewrite <- !app_assoc. simpl. by rewrite <- Heq.
    + destruct (IH (stack ++ [t])) as (tr & Htr & Heq).
      { apply Forall_app. split; [done|]. by constructor. }
      exists tr. split; [done|]. rewrite <- Heq. by rewrite <- app_assoc.
Qed.

End TokenizerFacts.

Module TokenizerClaims.
Import Parsing TokenizerFacts.

(** C7.  For every token sequence: the operators of the emitted records
    are the tokens of the operator set, one record per occurrence and in
    order, so a token outside the set is never emitted as an operator; no
    argument is an operator token; the records spelled out again (each
    record's arguments, then its operator) and followed by the literals
    after the last operator are the token sequence, so each record carries
    exactly the literals seen since the previous record; and an emission
    leaves an empty argument stack behind. *)
Theorem tokenizer_complete :
  (forall tokens : list string,
      map fst (tokenize tokens) = filter (.∈ PATH_OPS) tokens /\
      Forall (fun o => Forall literal (snd o)) (tokenize tokens) /\
      exists trailing,
        Forall literal trailing /\
        tokens = concat (map spelled (tokenize tokens)) ++ trailing) /\
  (forall (arg_stack lits : list string) (op : string) (rest : list string),
      Forall literal lits -> op ∈ PATH_OPS ->
      tokenize_from arg_stack (lits ++ op :: rest)
      = (op, arg_stack ++ lits) :: tokenize_from [] rest).
Proof.
  split.
  - intros tokens. unfold tokenize. split; [|split].
    + apply tokenize_from_operators.
    + apply tokenize_from_literals. constructor.
    + destruct (tokenize_from_stream [] tokens) as (tr & Htr & Heq);
        [constructor|]. by exists tr.
  - intros. by apply tokenize_from_emit.
Qed.

Lemma tokenizer_complete_witness :
  tokenize_from [] (["397.95"; "614.77"] ++ "m" :: ["12.5"; "w"; "S"])
  = ("m", [] ++ ["397.95"; "614.77"]) :: tokenize_from [] ["12.5"; "w"; "S"].
Proof.
  apply (proj2 tokenizer_complete [] ["397.95"; "614.77"] "m" ["12.5"; "w"; "S"]).
  - repeat (apply Forall_cons_2;
            [apply literal_checked; reflexivity|]).
    apply Forall_nil_2.
  - apply operator_checked. reflexivity.
Defined.

End TokenizerClaims.

(** ** The stroke interpreter *)

Module InterpreterFacts.
Import Parsing.

Section WithEnv.
Variable E : Env.

Lemma step_arming (st : state) :
  step E st ("RG", YELLOW)
  = Ok ({| current_line := Some [None]; width := width st;
           cap_style := cap_style st; join_style := join_style st |}, None).
Proof. reflexivity. Qed.

(** Without a matching [RG] an unarmed interpreter stays as it is. *)
Lemma step_unarmed (st : state) (o : operation) :
  armed st = false -> ~ arming o -> step E st o = Ok (st, None).
Proof.
  intros Hst Ho. destruct o as [op args]. unfold step.
  rewrite decide_False by done.
  unfold armed in Hst. by destruct (current_line st) as [[|? ?]|].
Qed.

Lemma run_unarmed (st : state) (ops : list operation) :
  armed st = false -> Forall (fun o => ~ arming o) ops ->
  run E st ops = ([], None).
Proof.
  intros Hst Hops. induction Hops as [|o ops Ho _ IH]; [done|].
  simpl. rewrite step_unarmed by done. by rewrite IH.
Qed.

Lemma run_raises (st : state) (o : operation) (rest : list operation) (e : exn) :
  step E st o = Raise e -> run E st (o :: rest) = ([], Some e).
Proof. intros H. cbn [run]. by rewrite H. Qed.

Lemma armed_inv (st : state) :
  armed st = true -> exists first rest, current_line st = Some (first :: rest).
Proof.
  unfold armed. destruct (current_line st) as [[|f r]|]; try done. eauto.
Qed.

(** The style tables are defined at 1, 2 and 3 only. *)
Lemma CAP_STYLES_dom (n : Z) :
  is_Some (CAP_STYLES !! n) <-> (1 <= n <= 3)%Z.
Proof.
  unfold CAP_STYLES. split.
  - intros [s Hs].
    destruct (decide (n = 1)%Z), (decide (n = 2)%Z), (decide (n = 3)%Z);
      try lia.
    rewrite !lookup_insert_ne, lookup_singleton_ne in Hs by done. done.
  - intros Hn.
    assert (n = 1 \/ n = 2 \/ n = 3)%Z as [-> | [-> | ->]] by lia;
      eexists; reflexivity.
Qed.

Lemma JOIN_STYLES_dom (n : Z) :
  is_Some (JOIN_STYLES !! n) <-> (1 <= n <= 3)%Z.
Proof.
  unfold JOIN_STYLES. split.
  - intros [s Hs].
    destruct (decide (n = 1)%Z), (decide (n = 2)%Z), (decide (n = 3)%Z);
      try lia.
    rewrite !lookup_insert_ne, lookup_singleton_ne in Hs by done. done.
  - intros Hn.
    assert (n = 1 \/ n = 2 \/ n = 3)%Z as [-> | [-> | ->]] by lia;
      eexists; reflexivity.
Qed.

Lemma lookup_style_outside {S : Type} (table : gmap Z S) (n : Z) :
  table !! n = None -> lookup_style table n = Raise (KeyErrorInt n).
Proof. intros H. unfold lookup_style. by rewrite H. Qed.

End WithEnv.

End InterpreterFacts.

Module InterpreterClaims.
Import Parsing InterpreterFacts.

(** The stroke of the specification's round trip, [RG w J j m l S], in
    the exact yellow: one shape, the line from (0,0) to (10,0) buffered
    by 5 with round cap and round join. *)
Example yellow_stroke_yields_one_shape :
  run Sample.env initial
      [("RG", ["1"; "0.952941"; "0.658824"]); ("w", ["10"]); ("J", ["1"]);
       ("j", ["1"]); ("m", ["0"; "0"]); ("l", ["10"; "0"]); ("S", [])]
  = ([buffer Sample.env [(0, 0); (inject_Z 10, 0)]%Q (inject_Z 10 / 2)%Q
                        CAP_round JOIN_round], None).
Proof. reflexivity. Qed.

(** C6.  An unarmed interpreter is armed by a record exactly when the
    record is [RG] with the argument list ["1"; "0.952941"; "0.658824"],
    compared as strings; and a sequence of records in which every [RG]
    carries other arguments yields no shape (and raises nothing),
    whatever else it holds, also when it is read from the raw stream. *)
Theorem non_yellow_strokes_ignored (E : Env) :
  (forall (st : state) (op : string) (args : list string),
      armed st = false ->
      exists st', step E st (op, args) = Ok (st', None) /\
                  (armed st' = true <-> op = "RG" /\ args = YELLOW)) /\
  (forall ops : list operation,
      Forall (fun o => fst o = "RG" -> snd o <> YELLOW) ops ->
      run E initial ops = ([], None)) /\
  (forall (raw_graphics_content : string) (tokens : list string),
      decode_split E raw_graphics_content = Some tokens ->
      Forall (fun o => fst o = "RG" -> snd o <> YELLOW) (tokenize tokens) ->
      highlighter_lines E raw_graphics_content = ([], None)).
Proof.
  assert (Hrun : forall ops : list operation,
             Forall (fun o => fst o = "RG" -> snd o <> YELLOW) ops ->
             run E initial ops = ([], None)).
  { intros ops Hops. apply run_unarmed; [done|].
    eapply Forall_impl; [exact Hops|].
    intros [op args] Ho Heq. inversion Heq; subst. by apply Ho. }
  split; [|split; [exact Hrun|]]; cycle 1.
  - intros raw tokens Hdec Hops.
    unfold highlighter_lines, tokenize_graphics. rewrite Hdec. by apply Hrun.
  - intros st op args Hst.
    destruct (decide ((op, args) = ("RG", YELLOW))) as [Heq|Hne].
    + inversion Heq; subst. eexists. split; [apply step_arming|].
      simpl. tauto.
    + exists st. split; [by apply step_unarmed|].
      rewrite Hst. split; [done|]. intros [-> ->]. done.
Qed.

Lemma non_yellow_strokes_ignored_witness :
  run Sample.env initial
      [("RG", ["1"; "0.952941"; "0.658825"]); ("w", ["10"]); ("J", ["1"]);
       ("j", ["1"]); ("m", ["0"; "0"]); ("l", ["10"; "0"]); ("S", [])]
  = ([], None).
Proof.
  apply (proj1 (proj2 (non_yellow_strokes_ignored Sample.env))).
  repeat (apply Forall_cons_2; [simpl; intros; discriminate|]).
  apply Forall_nil_2.
Defined.

(** C10.  The cap and join style tables are defined at 1, 2 and 3 and
    nowhere else; and while a stroke is armed, a [J] or [j] record whose
    first argument reads as an integer outside 1..3 (0, say) makes the
    interpreter raise [KeyError] for that integer: the record is neither
    skipped nor given a default style, and the generator ends there. *)
Theorem style_outside_table_raises (E : Env) :
  (forall n : Z, is_Some (CAP_STYLES !! n) <-> (1 <= n <= 3)%Z) /\
  (forall n : Z, is_Some (JOIN_STYLES !! n) <-> (1 <= n <= 3)%Z) /\
  (forall (st : state) (op : string) (args : list string) (a : string) (n : Z)
          (rest : list operation),
      armed st = true ->
      op = "J" \/ op = "j" ->
      args !! 0%nat = Some a ->
      py_int E a = Some n ->
      ~ (1 <= n <= 3)%Z ->
      step E st (op, args) = Raise (KeyErrorInt n) /\
      run E st ((op, args) :: rest) = ([], Some (KeyErrorInt n))).
Proof.
  split; [apply CAP_STYLES_dom|]. split; [apply JOIN_STYLES_dom|].
  intros st op args a n rest Hst Hop Ha Hint Hn.
  assert (Hstep : step E st (op, args) = Raise (KeyErrorInt n)).
  { destruct (armed_inv st Hst) as (first & tail & Hcl).
    unfold step. rewrite Hcl.
    destruct Hop as [-> | ->].
    - rewrite decide_False by (intros Heq; inversion Heq).
      rewrite decide_False by done. rewrite decide_False by done.
      rewrite decide_True by done.
      unfold int_arg, arg. rewrite Ha. simpl. rewrite Hint. simpl.
      rewrite lookup_style_outside; [done|].
      apply eq_None_not_Some. by rewrite CAP_STYLES_dom.
    - rewrite decide_False by (intros Heq; inversion Heq).
      rewrite decide_False by done. rewrite decide_True by done.
      unfold int_arg, arg. rewrite Ha. simpl. rewrite Hint. simpl.
      rewrite lookup_style_outside; [done|].
      apply eq_None_not_Some. by rewrite JOIN_STYLES_dom. }
  split; [done|]. by apply run_raises.
Qed.

Lemma style_outside_table_raises_witness :
  let st := {| current_line := Some [None]; width := None;
               cap_style := None; join_style := None |} in
  step Sample.env st ("J", ["0"]) = Raise (KeyErrorInt 0) /\
  run Sample.env st [("J", ["0"]); ("S", [])] = ([], Some (KeyErrorInt 0)).
Proof.
  apply (proj2 (proj2 (style_outside_table_raises Sample.env))
               _ "J" ["0"] "0" 0%Z [("S", [])]).
  - reflexivity.
  - left. reflexivity.
  - reflexivity.
  - reflexivity.
  - lia.
Defined.

(** The same through the whole generator, from the raw stream. *)
Example cap_style_zero_raises :
  highlighter_lines Sample.env "1 0.952941 0.658824 RG 10 w 0 J 1 j 0 0 m 10 0 l S"
  = ([], Some (KeyErrorInt 0)).
Proof. reflexivity. Qed.

End InterpreterClaims.

(** ** Geometry facts *)

Module GeometryFacts.
Local Open Scope Q_scope.

Lemma Qlt_bool_iff (a b : Q) : Qlt_bool a b = true <-> a < b.
Proof.
  unfold Qlt_bool. rewrite negb_true_iff, <- not_true_iff_false, Qle_bool_iff.
  split; [apply Qnot_le_lt | apply Qlt_not_le].
Qed.

Lemma Qlt_bool_false_iff (a b : Q) : Qlt_bool a b = false <-> b <= a.
Proof.
  rewrite <- not_true_iff_false, Qlt_bool_iff.
  split; [apply Qnot_lt_le | apply Qle_not_lt].
Qed.

Lemma Qlt_bool_proper (a a' b b' : Q) :
  a == a' -> b == b' -> Qlt_bool a b = Qlt_bool a' b'.
Proof.
  intros Ha Hb. destruct (Qlt_bool a' b') eqn:H.
  - apply Qlt_bool_iff. apply Qlt_bool_iff in H. by rewrite Ha, Hb.
  - apply Qlt_bool_false_iff. apply Qlt_bool_false_iff in H. by rewrite Ha, Hb.
Qed.

(** The area of a polygon built from a bare ring. *)
Lemma area_of_ring (r : ring) : area (mkPolygon r []) = ring_area r.
Proof. reflexivity. Qed.

Lemma between_min_max (a b : Q) :
  Qmin a b <= (a + b) / 2 /\ (a + b) / 2 <= Qmax a b.
Proof.
  destruct (Q.min_spec a b) as [[Hlt Hmin]|[Hle Hmin]];
    destruct (Q.max_spec a b) as [[Hlt' Hmax]|[Hle' Hmax]];
    rewrite Hmin, Hmax; unfold Qdiv; change (/ 2) with (1 # 2); split; lra.
Qed.

(** The centroid of a word box is a point of the box. *)
Lemma centroid_in_box (b : Box) : in_box b (centroid b).
Proof.
  unfold in_box, centroid. simpl.
  pose proof (between_min_max (minx b) (maxx b)).
  pose proof (between_min_max (miny b) (maxy b)). tauto.
Qed.

Lemma all_exterior_counts (geoms : list Polygon) (p : point) :
  Forall (fun g => locate g p = Exterior) geoms ->
  filter (fun g => locate g p = Boundary) geoms = [] /\
  existsb (fun g => contains g p) geoms = false.
Proof.
  induction 1 as [|g gs Hg _ [IH1 IH2]]; [done|]. simpl.
  rewrite filter_cons, decide_False by congruence.
  unfold contains at 1. rewrite bool_decide_false by congruence. done.
Qed.

Lemma separated_at_tail (g : Polygon) (gs : list Polygon) (p : point) :
  separated_at (g :: gs) p -> separated_at gs p.
Proof.
  unfold separated_at. rewrite filter_cons. case_decide; simpl; lia.
Qed.

Lemma separated_at_head (g : Polygon) (gs : list Polygon) (p : point) :
  separated_at (g :: gs) p -> locate g p <> Exterior ->
  Forall (fun g' => locate g' p = Exterior) gs.
Proof.
  unfold separated_at. intros H Hg. rewrite filter_cons, decide_True in H by done.
  simpl in H.
  assert (Hnil : filter (fun g' => locate g' p <> Exterior) gs = [])
    by (destruct (filter _ gs); [done | simpl in H; lia]).
  apply Forall_forall. intros g' Hin.
  destruct (decide (locate g' p = Exterior)) as [|Hne]; [done|].
  assert (Hf : g' ∈ filter (fun g' => locate g' p <> Exterior) gs)
    by (apply list_elem_of_filter; done).
  rewrite Hnil in Hf. by apply not_elem_of_nil in Hf.
Qed.

(** The two counts [multi_locate] works with, when the point is in or on
    at most one member. *)
Lemma separated_counts (geoms : list Polygon) (p : point) :
  separated_at geoms p ->
  (Exists (fun g => locate g p = Interior) geoms ->
   filter (fun g => locate g p = Boundary) geoms = [] /\
   existsb (fun g => contains g p) geoms = true) /\
  (Forall (fun g => locate g p = Boundary \/ locate g p = Exterior) geoms ->
   (length (filter (fun g => locate g p = Boundary) geoms) <= 1)%nat /\
   existsb (fun g => contains g p) geoms = false).
Proof.
  induction geoms as [|g gs IH]; intros Hsep.
  - split; [by intros ?%Exists_nil | done].
  - destruct (locate g p) eqn:Hg.
    + assert (Hgs : Forall (fun g' => locate g' p = Exterior) gs)
        by (apply (separated_at_head g); [done | congruence]).
      destruct (all_exterior_counts gs p Hgs) as [Hb Hin]. split.
      * intros _. simpl. rewrite filter_cons, decide_False by congruence.
        unfold contains at 1. rewrite bool_decide_true by done. done.
      * intros H. apply Forall_cons in H as [[H|H] _]; congruence.
    + assert (Hgs : Forall (fun g' => locate g' p = Exterior) gs)
        by (apply (separated_at_head g); [done | congruence]).
      destruct (all_exterior_counts gs p Hgs) as [Hb Hin]. split.
      * intros H. apply Exists_cons in H as [H|H]; [congruence|].
        apply Exists_exists in H as (g' & Hin' & Hg').
        rewrite Forall_forall in Hgs. specialize (Hgs g' Hin'). congruence.
      * intros _. simpl. rewrite filter_cons, decide_True by done.
        unfold contains at 1. rewrite bool_decide_false by congruence.
        rewrite Hb, Hin. simpl. split; [lia | done].
    + destruct (IH (separated_at_tail g gs p Hsep)) as [IH1 IH2]. split.
      * intros H. apply Exists_cons in H as [H|H]; [congruence|].
        simpl. rewrite filter_cons, decide_False by congruence.
        unfold contains at 1. rewrite bool_decide_false by congruence.
        by apply IH1.
      * intros H. apply Forall_cons in H as [_ H].
        simpl. rewrite filter_cons, decide_False by congruence.
        unfold contains at 1. rewrite bool_decide_false by congruence.
        by apply IH2.
Qed.

Lemma multi_contains_inside (geoms : list Polygon) (p : point) :
  separated_at geoms p ->
  Exists (fun g => locate g p = Interior) geoms ->
  multi_contains geoms p = true.
Proof.
  intros Hsep H. destruct (proj1 (separated_counts geoms p Hsep) H) as [Hb Hin].
  unfold multi_contains, multi_locate. rewrite Hb, Hin. done.
Qed.

Lemma multi_contains_not_inside (geoms : list Polygon) (p : point) :
  separated_at geoms p ->
  Forall (fun g => locate g p = Boundary \/ locate g p = Exterior) geoms ->
  multi_contains geoms p = false.
Proof.
  intros Hsep H. destruct (proj2 (separated_counts geoms p Hsep) H) as [Hb Hin].
  unfold multi_contains, multi_locate. rewrite Hin.
  destruct (length (filter (fun g => locate g p = Boundary) geoms)) as [|[|n]];
    [done | done | lia].
Qed.

Lemma multi_contains_all_exterior (geoms : list Polygon) (p : point) :
  Forall (fun g => locate g p = Exterior) geoms ->
  multi_contains geoms p = false.
Proof.
  intros H. destruct (all_exterior_counts geoms p H) as [Hb Hin].
  unfold multi_contains, multi_locate. by rewrite Hb, Hin.
Qed.

End GeometryFacts.

Module ClassifierClaims.
Import Extract GeometryFacts Sample.
Local Open Scope Q_scope.

(** C5.  The classifier answers [SELECTION] exactly when the shape has one
    interior ring and the area that ring encloses is strictly greater than
    the threshold.  A shape without interior ring, with two or more, or
    with one whose area is at most the threshold (equal included) is
    [TEXTUAL].  The answer is fixed by the interior rings and the value of
    the threshold. *)
Theorem classifier_boundary (highlight_poly : Polygon) (threshold : Q) :
  (classify_highlight highlight_poly threshold = SELECTION
   <-> exists hole, interiors highlight_poly = [hole] /\ threshold < ring_area hole) /\
  (classify_highlight highlight_poly threshold = TEXTUAL
   <-> ~ exists hole, interiors highlight_poly = [hole] /\ threshold < ring_area hole) /\
  (interiors highlight_poly = [] ->
   classify_highlight highlight_poly threshold = TEXTUAL) /\
  ((1 < length (interiors highlight_poly))%nat ->
   classify_highlight highlight_poly threshold = TEXTUAL) /\
  (forall hole, interiors highlight_poly = [hole] -> ring_area hole <= threshold ->
                classify_highlight highlight_poly threshold = TEXTUAL) /\
  (forall (other : Polygon) (threshold' : Q),
      interiors other = interiors highlight_poly -> threshold' == threshold ->
      classify_highlight other threshold' = classify_highlight highlight_poly threshold).
Proof.
  assert (Hsel : classify_highlight highlight_poly threshold = SELECTION
            <-> exists hole, interiors highlight_poly = [hole] /\ threshold < ring_area hole).
  { unfold classify_highlight.
    destruct (interiors highlight_poly) as [|hole [|hole' more]].
    - split; [done|]. by intros (h & Hh & _).
    - rewrite area_of_ring.
      destruct (Qlt_bool threshold (ring_area hole)) eqn:Hlt.
      + apply Qlt_bool_iff in Hlt. split; [|done]. intros _. by exists hole.
      + apply Qlt_bool_false_iff in Hlt. split; [done|].
        intros (h & Hh & Harea). inversion Hh; subst.
        by apply Qlt_not_le in Harea.
    - split; [done|]. by intros (h & Hh & _). }
  split; [exact Hsel|]. split; [|split; [|split; [|split]]].
  - rewrite <- Hsel.
    destruct (classify_highlight highlight_poly threshold); split; congruence.
  - intros Hi. unfold classify_highlight. by rewrite Hi.
  - intros Hlen. unfold classify_highlight.
    destruct (interiors highlight_poly) as [|hole [|hole' more]];
      simpl in Hlen; try lia; done.
  - intros hole Hi Harea. unfold classify_highlight. rewrite Hi, area_of_ring.
    apply Qlt_bool_false_iff in Harea. by rewrite Harea.
  - intros other threshold' Hi Ht. unfold classify_highlight. rewrite Hi.
    destruct (interiors highlight_poly) as [|hole [|hole' more]]; try done.
    by rewrite (Qlt_bool_proper threshold' threshold _ (area (mkPolygon hole []))).
Qed.

Lemma classifier_boundary_witness :
  classify_highlight loop_with_hole 100 = TEXTUAL.
Proof.
  apply (proj1 (proj2 (proj2 (proj2 (proj2 (classifier_boundary loop_with_hole 100)))))
               [(10, 10); (20, 10); (20, 20); (10, 20); (10, 10)]).
  - reflexivity.
  - vm_compute. discriminate.
Defined.

Example classifier_just_above :
  classify_highlight loop_with_hole (99 + 1 # 2) = SELECTION.
Proof. reflexivity. Qed.

End ClassifierClaims.

Module MatcherClaims.
Import Extract GeometryFacts Sample.
Local Open Scope Q_scope.

Example centroid_inside_matched :
  locate square (centroid word_inside) = Interior /\
  word_is_highlighted Sample.env (member CENTROID) [square] word_inside = Ok true.
Proof. split; reflexivity. Qed.

Example centroid_outside_unmatched :
  locate square (centroid word_outside) = Exterior /\
  word_is_highlighted Sample.env (member CENTROID) [square] word_outside = Ok false.
Proof. split; reflexivity. Qed.

(** C4, as stated, fails: a word whose centroid lies on the boundary of
    the highlight geometry is not matched. *)
Lemma centroid_on_boundary_unmatched :
  ~ (forall (E : Env) (highlight_poly : list Polygon) (word_box : Box),
        Exists (fun g => locate g (centroid word_box) = Boundary) highlight_poly ->
        word_is_highlighted E (member CENTROID) highlight_poly word_box = Ok true).
Proof.
  intros H. specialize (H Sample.env [square] word_on_edge).
  assert (Hb : Exists (fun g => locate g (centroid word_on_edge) = Boundary) [square])
    by (apply Exists_cons_hd; reflexivity).
  apply H in Hb. vm_compute in Hb. discriminate.
Qed.

(** C4, amended.  Under the Centroid policy, with Textual polygons that
    are the disjoint parts the polygon merger yields, so that the centroid
    of the word box lies in or on at most one of them: a word is matched
    when its centroid lies in the interior of one of the polygons, and it
    is not matched when the centroid lies on the boundary of, or outside,
    each of them (the test is boundary-exclusive).  A word whose box lies
    entirely outside every polygon is not matched. *)
Theorem centroid_matcher (E : Env) (highlight_poly : list Polygon) (word_box : Box) :
  (separated_at highlight_poly (centroid word_box) ->
   Exists (fun g => locate g (centroid word_box) = Interior) highlight_poly ->
   word_is_highlighted E (member CENTROID) highlight_poly word_box = Ok true) /\
  (separated_at highlight_poly (centroid word_box) ->
   Forall (fun g => locate g (centroid word_box) = Boundary \/
                    locate g (centroid word_box) = Exterior) highlight_poly ->
   word_is_highlighted E (member CENTROID) highlight_poly word_box = Ok false) /\
  (Forall (fun g => forall p, in_box word_box p -> locate g p = Exterior) highlight_poly ->
   word_is_highlighted E (member CENTROID) highlight_poly word_box = Ok false).
Proof.
  unfold word_is_highlighted. split; [|split].
  - intros Hsep H. f_equal. by apply multi_contains_inside.
  - intros Hsep H. f_equal. by apply multi_contains_not_inside.
  - intros H. f_equal. apply multi_contains_all_exterior.
    eapply Forall_impl; [exact H|]. intros g Hg.
    apply (Hg _ (centroid_in_box word_box)).
Qed.

Lemma centroid_matcher_witness :
  word_is_highlighted Sample.env (member CENTROID) [square] word_on_edge = Ok false.
Proof.
  apply (proj1 (proj2 (centroid_matcher Sample.env [square] word_on_edge))).
  - apply Nat.leb_le. vm_compute. reflexivity.
  - apply Forall_cons_2; [left; reflexivity | apply Forall_nil_2].
Defined.

(** Two overlapping squares are not the parts of a union: the centroid
    (10,5) of this word lies on the edge of the first and inside the
    second, and the word is not matched. *)
Example centroid_on_one_edge_inside_another :
  word_is_highlighted Sample.env (member CENTROID)
    [square; mkPolygon [(5, 0); (15, 0); (15, 10); (5, 10); (5, 0)] []]
    (mkBox 8 4 12 6)
  = Ok false.
Proof. reflexivity. Qed.

End MatcherClaims.

Module NormalizerClaims.
Import Extract Sample.
Local Open Scope Q_scope.

(** C9, as stated, fails: with a crop box from y = 10 to y = 110 the page
    height is 100, but the point (5, 20) goes to (5, 90), not (5, 80). *)
Lemma flip_uses_top_not_height :
  ~ (forall (page : Page) (x y : Q),
        fst (to_fitz_coord page x y) == x /\
        snd (to_fitz_coord page x y)
        == (y1 (CropBox page) - y0 (CropBox page)) - y).
Proof.
  intros H. destruct (H shifted_page 5 20) as [_ Hy].
  vm_compute in Hy. discriminate.
Qed.

(** C9, amended.  The normalizer maps (x, y) to (x, top - y), where top is
    the last coordinate of the page's crop box (its upper y), and it is
    applied to every point of every ring of every extracted shape.  The
    result is (x, page_height - y), with page_height the crop box's upper
    y minus its lower y, exactly when the crop box's lower y is 0. *)
Theorem normalizer_flips_about_crop_top :
  (forall (page : Page) (x y : Q),
      to_fitz_coord page x y = (x, y1 (CropBox page) - y)) /\
  (forall (page : Page) (g : Polygon),
      let flip := fun '(x, y) => (x, y1 (CropBox page) - y) in
      coordinate_transformer page g
      = {| exterior := map flip (exterior g);
           interiors := map (map flip) (interiors g) |}) /\
  (forall (E : Env) (page : Page),
      extract_highlight_lines E page
      = let* polys := extract_streams E (contents page) in
        Ok (map (coordinate_transformer page) polys)) /\
  (forall (page : Page) (x y : Q),
      snd (to_fitz_coord page x y)
      == (y1 (CropBox page) - y0 (CropBox page)) - y
      <-> y0 (CropBox page) == 0).
Proof.
  split; [done|]. split; [|split; [done|]].
  - intros page g flip. unfold coordinate_transformer, transform. f_equal.
  - intros page x y. simpl. unfold rect_last. split; intros H; lra.
Qed.

Lemma normalizer_flips_about_crop_top_witness :
  snd (to_fitz_coord (mkPage 0 (mkRect 0 0 100 110) [] []) 5 20)
  == (110 - 0) - 20.
Proof.
  apply (proj2 (proj2 (proj2 normalizer_flips_about_crop_top))
               (mkPage 0 (mkRect 0 0 100 110) [] []) 5 20).
  reflexivity.
Defined.

End NormalizerClaims.

(** ** The page loop and the policy name *)

Module PipelineFacts.
Import Extract.

Section WithEnv.
Variable E : Env.
Variables (max_skip_len : Z) (name : string) (threshold zoom : Q).

Lemma getitem_unknown :
  unknown_policy name ->
  WordSelectionMethod_getitem name = Raise (KeyError name).
Proof.
  intros [H1 H2]. unfold WordSelectionMethod_getitem.
  by rewrite !decide_False.
Qed.

(** A page without Textual polygon is processed without a look at the
    policy name. *)
Lemma process_page_no_textual acc (page : Page) :
  textual_polys E threshold page = Ok [] ->
  exists acc', process_page E max_skip_len name threshold zoom acc page = Ok acc'.
Proof.
  unfold textual_polys, process_page. destruct acc as [texts clips].
  destruct (extract_highlight_lines E page) as [lines|e]; simpl; [|done].
  destruct lines as [|l ls]; [eauto|].
  destruct (merge_highlight_lines E (l :: ls)) as [polys|e]; simpl; [|done].
  destruct (classify_highlights polys threshold) as [text sel]. simpl.
  intros [= ->]. eauto.
Qed.

(** On the first page with a Textual polygon an unknown name raises. *)
Lemma process_page_textual_unknown acc (page : Page) (t : Polygon) (ts : list Polygon) :
  unknown_policy name ->
  textual_polys E threshold page = Ok (t :: ts) ->
  process_page E max_skip_len name threshold zoom acc page = Raise (KeyError name).
Proof.
  intros Hname. unfold textual_polys, process_page. destruct acc as [texts clips].
  destruct (extract_highlight_lines E page) as [lines|e]; simpl; [|done].
  destruct lines as [|l ls]; [done|].
  destruct (merge_highlight_lines E (l :: ls)) as [polys|e]; simpl; [|done].
  destruct (classify_highlights polys threshold) as [text sel]. simpl.
  intros [= ->]. by rewrite getitem_unknown.
Qed.

Lemma pages_loop_no_textual acc (doc : list Page) :
  Forall (fun page => textual_polys E threshold page = Ok []) doc ->
  exists r, pages_loop E max_skip_len name threshold zoom acc doc = Ok r.
Proof.
  intros H. revert acc. induction H as [|page doc Hp _ IH]; intros acc; simpl.
  - eauto.
  - destruct (process_page_no_textual acc page Hp) as [acc' ->]. simpl.
    apply IH.
Qed.

Lemma pages_loop_textual_unknown acc (pre : list Page) (page : Page)
    (post : list Page) (t : Polygon) (ts : list Polygon) :
  unknown_policy name ->
  Forall (fun p => textual_polys E threshold p = Ok []) pre ->
  textual_polys E threshold page = Ok (t :: ts) ->
  pages_loop E max_skip_len name threshold zoom acc (pre ++ page :: post)
  = Raise (KeyError name).
Proof.
  intros Hname Hpre Hp. revert acc.
  induction Hpre as [|p pre Hp0 _ IH]; intros acc; simpl.
  - by rewrite (process_page_textual_unknown acc page t ts).
  - destruct (process_page_no_textual acc p Hp0) as [acc' ->]. simpl.
    apply IH.
Qed.

End WithEnv.

Lemma bogus_unknown : unknown_policy "BOGUS".
Proof. split; discriminate. Qed.

End PipelineFacts.

Module PipelineClaims.
Import Extract PipelineFacts Sample.

(** C8, as stated, fails: with an unknown policy name a document without
    textual highlight is processed to the end. *)
Lemma unknown_policy_unnoticed :
  ~ (forall (E : Env) (doc : list Page) (max_skip_len : Z) (name : string)
            (threshold zoom : Q),
        unknown_policy name ->
        is_ok (extract_highlights E doc max_skip_len name threshold zoom) = false).
Proof.
  intros H.
  specialize (H Sample.env [plain_page] 3%Z "BOGUS" (inject_Z 1000) (inject_Z 3)).
  pose proof bogus_unknown as Hn.
  apply H in Hn. vm_compute in Hn. discriminate.
Qed.

(** C8, amended.  [extract_highlights] looks the policy name up when it
    reaches a page that has a Textual highlight, and not before.  With a
    name outside CENTROID and AREA_RATIO: a document none of whose pages
    has a Textual highlight is processed without error; and a document
    whose first such page comes after pages without one raises
    [KeyError] for the name at that page. *)
Theorem unknown_policy_raises_at_first_textual_page
    (E : Env) (max_skip_len : Z) (name : string) (threshold zoom : Q) :
  unknown_policy name ->
  (forall doc : list Page,
      Forall (fun page => textual_polys E threshold page = Ok []) doc ->
      exists r, extract_highlights E doc max_skip_len name threshold zoom = Ok r) /\
  (forall (pre : list Page) (page : Page) (post : list Page)
          (t : Polygon) (ts : list Polygon),
      Forall (fun p => textual_polys E threshold p = Ok []) pre ->
      textual_polys E threshold page = Ok (t :: ts) ->
      extract_highlights E (pre ++ page :: post) max_skip_len name threshold zoom
      = Raise (KeyError name)).
Proof.
  intros Hname. split.
  - intros doc Hdoc. by apply pages_loop_no_textual.
  - intros pre page post t ts Hpre Hp.
    by apply (pages_loop_textual_unknown E _ _ _ _ _ pre page post t ts).
Qed.

Lemma unknown_policy_raises_at_first_textual_page_witness :
  extract_highlights Sample.env ([plain_page] ++ marked_page :: [plain_page])
                     3 "BOGUS" (inject_Z 1000) (inject_Z 3)
  = Raise (KeyError "BOGUS").
Proof.
  eapply (proj2 (unknown_policy_raises_at_first_textual_page
                   Sample.env 3%Z "BOGUS" (inject_Z 1000) (inject_Z 3)
                   bogus_unknown)
                [plain_page] marked_page [plain_page]).
  - apply Forall_cons_2; [reflexivity | apply Forall_nil_2].
  - vm_compute. reflexivity.
Defined.

(** With a known name the same document is processed, and the page with
    the stroke over its word yields that word. *)
Example known_policy_processed :
  extract_highlights Sample.env [plain_page; marked_page]
                     3 "CENTROID" (inject_Z 1000) (inject_Z 3)
  = Ok ({[ 2%Z := ["word"] ]}, ∅).
Proof. vm_compute. reflexivity. Qed.

End PipelineClaims.


(** * Further properties of the code *)

(** ** The tokenizer, continued *)

Module TokenizerMore.
Import Parsing TokenizerFacts.

Lemma tokenize_from_app_operator (arg_stack ts1 : list string) (op : string)
    (ts2 : list string) :
  op ∈ PATH_OPS ->
  tokenize_from arg_stack (ts1 ++ op :: ts2)
  = tokenize_from arg_stack (ts1 ++ [op]) ++ tokenize_from [] ts2.
Proof.
  intros Hop. revert arg_stack. induction ts1 as [|t ts1 IH]; intros stack; simpl.
  - by rewrite bool_decide_true.
  - case_bool_decide; simpl; by rewrite IH.
Qed.

(** The stream can be cut after any operator: what follows is tokenized on
    its own, from an empty argument stack. *)
Theorem tokenize_cut_after_operator (ts1 : list string) (op : string)
    (ts2 : list string) :
  op ∈ PATH_OPS ->
  tokenize (ts1 ++ op :: ts2) = tokenize (ts1 ++ [op]) ++ tokenize ts2.
Proof. apply tokenize_from_app_operator. Qed.

Lemma tokenize_cut_after_operator_witness :
  tokenize (["0"; "0"; "m"; "3"] ++ "w" :: ["1"; "J"])
  = tokenize (["0"; "0"; "m"; "3"] ++ ["w"]) ++ tokenize ["1"; "J"].
Proof.
  apply (tokenize_cut_after_operator ["0"; "0"; "m"; "3"] "w" ["1"; "J"]).
  apply operator_checked. reflexivity.
Defined.

Lemma tokenize_from_trailing (arg_stack ts lits : list string) :
  Forall literal lits ->
  tokenize_from arg_stack (ts ++ lits) = tokenize_from arg_stack ts.
Proof.
  intros Hl. revert arg_stack. induction ts as [|t ts IH]; intros stack; simpl.
  - by apply tokenize_from_no_operator.
  - case_bool_decide; by rewrite IH.
Qed.

(** Arguments that no operator follows are dropped without notice. *)
Theorem tokenize_drops_trailing_arguments (ts lits : list string) :
  Forall literal lits -> tokenize (ts ++ lits) = tokenize ts.
Proof. apply tokenize_from_trailing. Qed.

Lemma tokenize_drops_trailing_arguments_witness :
  tokenize (["0"; "0"; "m"] ++ ["10"; "20"]) = tokenize ["0"; "0"; "m"].
Proof.
  apply (tokenize_drops_trailing_arguments ["0"; "0"; "m"] ["10"; "20"]).
  repeat (apply Forall_cons_2; [apply literal_checked; reflexivity|]).
  apply Forall_nil_2.
Defined.

(** Records whose operators are operator tokens and whose arguments are
    not, written out as a stream, are read back as they were. *)
Theorem tokenize_spelled_round_trip (records : list operation) :
  Forall (fun o => fst o ∈ PATH_OPS /\ Forall literal (snd o)) records ->
  tokenize (concat (map spelled records)) = records.
Proof.
  unfold tokenize. induction 1 as [|[op args] records [Hop Hargs] _ IH]; [done|].
  simpl in *. unfold spelled at 1. simpl. rewrite <- app_assoc. simpl.
  rewrite tokenize_from_emit by done. simpl. by rewrite IH.
Qed.

Lemma tokenize_spelled_round_trip_witness :
  tokenize (concat (map spelled [("m", ["0"; "0"]); ("S", [])]))
  = [("m", ["0"; "0"]); ("S", [])].
Proof.
  apply (tokenize_spelled_round_trip [("m", ["0"; "0"]); ("S", [])]).
  apply Forall_cons_2.
  - split; [apply operator_checked; reflexivity|].
    repeat (apply Forall_cons_2; [apply literal_checked; reflexivity|]).
    apply Forall_nil_2.
  - apply Forall_cons_2; [|apply Forall_nil_2].
    split; [apply operator_checked; reflexivity | apply Forall_nil_2].
Defined.

End TokenizerMore.

(** ** The pre-check of a content stream *)

Module PrecheckFacts.
Import Parsing.

Lemma starts_with_spec (p s : string) :
  starts_with p s = true <-> exists post, s = p +:+ post.
Proof.
  revert s. induction p as [|a p IH]; intros s; simpl.
  - split; [|done]. intros _. by exists s.
  - destruct s as [|b s].
    + split; [done|]. by intros [post Hpost].
    + rewrite andb_true_iff, Ascii.eqb_eq, IH. split.
      * intros [-> [post ->]]. by exists post.
      * intros [post Hpost]. injection Hpost as -> ->. eauto.
Qed.

Lemma occurs_in_spec (p s : string) :
  occurs_in p s = true <-> exists pre post, s = pre +:+ p +:+ post.
Proof.
  induction s as [|b s IH]; simpl.
  - rewrite orb_false_r, starts_with_spec. split.
    + intros [post Hpost]. by exists "", post.
    + intros (pre & post & H). destruct pre as [|c pre]; [|done]. by exists post.
  - rewrite orb_true_iff, starts_with_spec, IH. split.
    + intros [[post Hpost]|(pre & post & Hs)].
      * by exists "", post.
      * exists (String b pre), post. simpl. by rewrite Hs.
    + intros (pre & post & H). destruct pre as [|c pre].
      * left. by exists post.
      * right. injection H as -> ->. by exists pre, post.
Qed.

(** A stream passes the pre-check exactly when it holds the text
    [1 0.952941 0.658824 RG], with single spaces, somewhere in it. *)
Theorem content_contains_highlight_spec (content : string) :
  content_contains_highlight content = true
  <-> exists pre post, content = pre +:+ "1 0.952941 0.658824 RG" +:+ post.
Proof. apply occurs_in_spec. Qed.

Lemma content_contains_highlight_spec_witness :
  content_contains_highlight ("q " +:+ "1 0.952941 0.658824 RG" +:+ " S") = true.
Proof.
  apply (proj2 (content_contains_highlight_spec
                  ("q " +:+ "1 0.952941 0.658824 RG" +:+ " S"))).
  exists "q ", " S". reflexivity.
Defined.

End PrecheckFacts.

(** ** The stroke interpreter, continued *)

Module InterpreterMore.
Import Parsing InterpreterFacts.

(** Decides the chain of comparisons of [step] for a fixed operator. *)
Ltac pick_branch := repeat (case_decide; try done).

Section WithEnv.
Variable E : Env.

Lemma step_m (st : state) (first : option point) (rest : list (option point))
    (a b : string) (more : list string) (x y : Q) :
  current_line st = Some (first :: rest) ->
  py_float E a = Some x -> py_float E b = Some y ->
  step E st ("m", a :: b :: more)
  = Ok ({| current_line := Some (Some (x, y) :: rest); width := width st;
           cap_style := cap_style st; join_style := join_style st |}, None).
Proof.
  intros Hcl Ha Hb. unfold step. rewrite Hcl. pick_branch.
  unfold float_arg, arg. simpl. by rewrite Ha, Hb.
Qed.

Lemma step_l (st : state) (first : option point) (rest : list (option point))
    (a b : string) (more : list string) (x y : Q) :
  current_line st = Some (first :: rest) ->
  py_float E a = Some x -> py_float E b = Some y ->
  step E st ("l", a :: b :: more)
  = Ok ({| current_line := Some (first :: rest ++ [Some (x, y)]); width := width st;
           cap_style := cap_style st; join_style := join_style st |}, None).
Proof.
  intros Hcl Ha Hb. unfold step. rewrite Hcl. pick_branch.
  unfold float_arg, arg. simpl. by rewrite Ha, Hb.
Qed.

Lemma step_w (st : state) (first : option point) (rest : list (option point))
    (a : string) (more : list string) (w : Q) :
  current_line st = Some (first :: rest) ->
  py_float E a = Some w ->
  step E st ("w", a :: more)
  = Ok ({| current_line := current_line st; width := Some w;
           cap_style := cap_style st; join_style := join_style st |}, None).
Proof.
  intros Hcl Ha. unfold step. rewrite Hcl. pick_branch.
  unfold float_arg, arg. simpl. by rewrite Ha.
Qed.

Lemma step_J (st : state) (first : option point) (rest : list (option point))
    (a : string) (more : list string) (n : Z) (c : CapStyle) :
  current_line st = Some (first :: rest) ->
  py_int E a = Some n -> CAP_STYLES !! n = Some c ->
  step E st ("J", a :: more)
  = Ok ({| current_line := current_line st; width := width st;
           cap_style := Some c; join_style := join_style st |}, None).
Proof.
  intros Hcl Ha Hc. unfold step. rewrite Hcl. pick_branch.
  unfold int_arg, arg, lookup_style. simpl. rewrite Ha. simpl. by rewrite Hc.
Qed.

Lemma step_j (st : state) (first : option point) (rest : list (option point))
    (a : string) (more : list string) (n : Z) (j : JoinStyle) :
  current_line st = Some (first :: rest) ->
  py_int E a = Some n -> JOIN_STYLES !! n = Some j ->
  step E st ("j", a :: more)
  = Ok ({| current_line := current_line st; width := width st;
           cap_style := cap_style st; join_style := Some j |}, None).
Proof.
  intros Hcl Ha Hj. unfold step. rewrite Hcl. pick_branch.
  unfold int_arg, arg, lookup_style. simpl. rewrite Ha. simpl. by rewrite Hj.
Qed.

Lemma line_string_points (ps : list point) :
  line_string (map Some ps) = Ok ps.
Proof. induction ps as [|p ps IH]; simpl; [done|]. by rewrite IH. Qed.

Lemma step_S (st : state) (p0 p1 : point) (ps : list point) (args : list string)
    (w : Q) (c : CapStyle) (j : JoinStyle) :
  current_line st = Some (map Some (p0 :: p1 :: ps)) ->
  width st = Some w -> cap_style st = Some c -> join_style st = Some j ->
  step E st ("S", args)
  = Ok ({| current_line := None; width := None;
           cap_style := None; join_style := None |},
        Some (buffer E (p0 :: p1 :: ps) (w / 2)%Q c j)).
Proof.
  intros Hcl Hw Hc Hj. unfold step. rewrite Hcl. simpl. pick_branch.
  rewrite Hw, Hc, Hj. simpl. by rewrite line_string_points.
Qed.

Lemma run_step_ok (st st' : state) (o : operation) (out : option Polygon)
    (rest : list operation) :
  step E st o = Ok (st', out) ->
  run E st (o :: rest)
  = (match out with Some s => s :: fst (run E st' rest) | None => fst (run E st' rest) end,
     snd (run E st' rest)).
Proof. intros H. cbn [run]. rewrite H. by destruct (run E st' rest), out. Qed.

End WithEnv.

End InterpreterMore.

Module InterpreterStrokes.
Import Parsing InterpreterFacts InterpreterMore.

Section WithEnv.
Variable E : Env.

Lemma run_step_none (st st' : state) (o : operation) (rest : list operation) :
  step E st o = Ok (st', None) -> run E st (o :: rest) = run E st' rest.
Proof. intros H. cbn [run]. rewrite H. by destruct (run E st' rest). Qed.

Lemma run_step_some (st st' : state) (o : operation) (s : Polygon)
    (rest : list operation) :
  step E st o = Ok (st', Some s) ->
  run E st (o :: rest) = (s :: fst (run E st' rest), snd (run E st' rest)).
Proof. intros H. cbn [run]. rewrite H. by destruct (run E st' rest). Qed.

(** The [l] records of a stroke and its closing [S]. *)
Lemma run_lines (p0 : point) (seen : list point) (w : Q) (c : CapStyle)
    (j : JoinStyle) (lines : list (string * string)) (pts : list point)
    (sargs : list string) (rest : list operation) :
  Forall2 (fun ab p => py_float E (fst ab) = Some (fst p) /\
                       py_float E (snd ab) = Some (snd p)) lines pts ->
  seen ++ pts <> [] ->
  run E {| current_line := Some (map Some (p0 :: seen)); width := Some w;
           cap_style := Some c; join_style := Some j |}
      (map (fun ab => ("l", [fst ab; snd ab])) lines ++ ("S", sargs) :: rest)
  = (buffer E (p0 :: seen ++ pts) (w / 2)%Q c j
       :: fst (run E {| current_line := None; width := None;
                        cap_style := None; join_style := None |} rest),
     snd (run E {| current_line := None; width := None;
                   cap_style := None; join_style := None |} rest)).
Proof.
  intros H. revert seen. induction H as [|[a b] [x y] lines pts [Ha Hb] _ IH];
    intros seen Hne.
  - rewrite app_nil_r in *. destruct seen as [|p1 ps]; [done|]. cbn [map app].
    erewrite run_step_some; [done|]. by apply step_S.
  - simpl in Ha, Hb. cbn [map app fst snd].
    erewrite run_step_none; [|by eapply step_l].
    cbn [current_line width cap_style join_style].
    replace (Some p0 :: map Some seen ++ [Some (x, y)])
      with (map Some (p0 :: (seen ++ [(x, y)])))
      by (simpl; by rewrite map_app).
    rewrite IH by (by destruct seen). by rewrite <- app_assoc.
Qed.

(** A complete stroke [RG w J j m l ... l S] in the highlighter colour
    yields one shape, whatever state the interpreter was in: the line
    through the point of [m] and the points of the [l] records, buffered by
    half the width with the styles the tables give.  The interpreter then
    goes on unarmed, with all four variables cleared. *)
Theorem complete_stroke_yields_its_buffer (st : state)
    (sw sc sj sx sy : string) (w x y : Q) (nc nj : Z) (c : CapStyle) (j : JoinStyle)
    (lines : list (string * string)) (pts : list point)
    (sargs : list string) (rest : list operation) :
  py_float E sw = Some w ->
  py_int E sc = Some nc -> CAP_STYLES !! nc = Some c ->
  py_int E sj = Some nj -> JOIN_STYLES !! nj = Some j ->
  py_float E sx = Some x -> py_float E sy = Some y ->
  Forall2 (fun ab p => py_float E (fst ab) = Some (fst p) /\
                       py_float E (snd ab) = Some (snd p)) lines pts ->
  lines <> [] ->
  run E st ([("RG", YELLOW); ("w", [sw]); ("J", [sc]); ("j", [sj]); ("m", [sx; sy])]
            ++ map (fun ab => ("l", [fst ab; snd ab])) lines
            ++ ("S", sargs) :: rest)
  = (buffer E ((x, y) :: pts) (w / 2)%Q c j
       :: fst (run E {| current_line := None; width := None;
                        cap_style := None; join_style := None |} rest),
     snd (run E {| current_line := None; width := None;
                   cap_style := None; join_style := None |} rest)).
Proof.
  intros Hw Hsc Hc Hsj Hj Hx Hy Hlines Hne. cbn [app].
  erewrite run_step_none; [|apply step_arming].
  erewrite run_step_none; [|by eapply step_w].
  cbn [current_line width cap_style join_style].
  erewrite run_step_none; [|by eapply step_J].
  cbn [current_line width cap_style join_style].
  erewrite run_step_none; [|by eapply step_j].
  cbn [current_line width cap_style join_style].
  erewrite run_step_none; [|by eapply step_m].
  cbn [current_line width cap_style join_style].
  apply (run_lines (x, y) [] w c j lines pts sargs rest Hlines).
  destruct Hlines; [done|]. done.
Qed.

End WithEnv.

Lemma complete_stroke_yields_its_buffer_witness :
  run Sample.env initial
      ([("RG", YELLOW); ("w", ["4"]); ("J", ["2"]); ("j", ["3"]); ("m", ["0"; "0"])]
       ++ map (fun ab => ("l", [fst ab; snd ab])) [("10", "0"); ("10", "5")]
       ++ ("S", []) :: [("Q", [])])
  = (buffer Sample.env [(0, 0); (inject_Z 10, 0); (inject_Z 10, inject_Z 5)]%Q
            (inject_Z 4 / 2)%Q CAP_flat JOIN_bevel
       :: fst (run Sample.env {| current_line := None; width := None;
                                 cap_style := None; join_style := None |} [("Q", [])]),
     snd (run Sample.env {| current_line := None; width := None;
                            cap_style := None; join_style := None |} [("Q", [])])).
Proof.
  apply (complete_stroke_yields_its_buffer Sample.env initial
           "4" "2" "3" "0" "0" (inject_Z 4) 0%Q 0%Q 2%Z 3%Z CAP_flat JOIN_bevel
           [("10", "0"); ("10", "5")]
           [(inject_Z 10, 0%Q); (inject_Z 10, inject_Z 5)] [] [("Q", [])]);
    try reflexivity.
  - constructor; [split; reflexivity|].
    constructor; [split; reflexivity|]. constructor.
  - discriminate.
Defined.

End InterpreterStrokes.

Module InterpreterEdges.
Import Parsing InterpreterFacts InterpreterMore InterpreterStrokes.

Section WithEnv.
Variable E : Env.

(** While armed, an [m] that is followed by another [m] has no effect: the
    later one replaces the start of the line. *)
Theorem move_replaced_by_next_move (st : state) (a b : string)
    (more args2 : list string) (x y : Q) (rest : list operation) :
  armed st = true ->
  py_float E a = Some x -> py_float E b = Some y ->
  run E st (("m", a :: b :: more) :: ("m", args2) :: rest)
  = run E st (("m", args2) :: rest).
Proof.
  intros Hst Ha Hb. destruct (armed_inv st Hst) as (first & tail & Hcl).
  erewrite run_step_none; [|by eapply step_m].
  cbn [run]. replace (step E _ ("m", args2)) with (step E st ("m", args2)); [done|].
  unfold step. rewrite Hcl. simpl. pick_branch. reflexivity.
Qed.

(** [S] on an armed stroke that lacks a width, a cap style, a join style or
    a second point fails an assertion, and the generator ends there. *)
Theorem stroke_end_on_incomplete_stroke (st : state) (args : list string) :
  armed st = true ->
  width st = None \/ cap_style st = None \/ join_style st = None \/
    (exists first, current_line st = Some [first]) ->
  exists msg, step E st ("S", args) = Raise (AssertionError msg) /\
              forall rest, run E st (("S", args) :: rest)
                           = ([], Some (AssertionError msg)).
Proof.
  intros Hst Hmiss. destruct (armed_inv st Hst) as (first & tail & Hcl).
  assert (exists msg, step E st ("S", args) = Raise (AssertionError msg)) as [msg Hs].
  { unfold step. rewrite Hcl.
    rewrite decide_False by done. rewrite !(decide_False (P := "S" = _)) by done.
    rewrite decide_True by done.
    destruct (width st) as [w|]; [|eexists; reflexivity].
    destruct (cap_style st) as [c|]; [|eexists; reflexivity].
    destruct (join_style st) as [j|]; [|eexists; reflexivity].
    destruct Hmiss as [?|[?|[?|[f Hf]]]]; try done.
    rewrite Hf in Hcl. simplify_eq.
    rewrite (bool_decide_false (1 < length [first])%nat) by (simpl; lia).
    eexists; reflexivity. }
  exists msg. split; [done|]. intros rest. by apply run_raises.
Qed.

(** The transformation matrix is compared as text with [1 0 0 1 0 0]: while
    armed any other argument list is refused, also one that denotes the
    identity in another spelling; while unarmed [cm] is not looked at. *)
Theorem transform_matrix_compared_as_text (st : state) (args : list string) :
  (armed st = false -> step E st ("cm", args) = Ok (st, None)) /\
  (armed st = true -> args = ["1"; "0"; "0"; "1"; "0"; "0"] ->
   step E st ("cm", args) = Ok (st, None)) /\
  (armed st = true -> args <> ["1"; "0"; "0"; "1"; "0"; "0"] ->
   exists msg, step E st ("cm", args) = Raise (NotImplementedError msg)).
Proof.
  split; [|split].
  - intros Hst. apply step_unarmed; [done|]. by intros [=].
  - intros Hst ->. destruct (armed_inv st Hst) as (first & tail & Hcl).
    unfold step. rewrite Hcl. pick_branch.
  - intros Hst Hne. destruct (armed_inv st Hst) as (first & tail & Hcl).
    unfold step. rewrite Hcl. pick_branch. by eexists.
Qed.

(** A shape comes out of an [S] record only, seen while armed, and leaves
    the interpreter unarmed. *)
Lemma step_yields_on_S (st st' : state) (o : operation) (s : Polygon) :
  step E st o = Ok (st', Some s) ->
  fst o = "S" /\ armed st = true /\ armed st' = false.
Proof.
  destruct o as [op args]. unfold step, armed.
  unfold float_arg, int_arg, arg, lookup_style, assert, bind.
  intros H. repeat case_decide; repeat case_match; simplify_eq; done.
Qed.

Lemma shapes_at_most_S (st : state) (ops : list operation) :
  length (fst (run E st ops)) <= length (filter (fun o => fst o = "S") ops).
Proof.
  revert st. induction ops as [|o ops IH]; intros st; [done|].
  cbn [run]. destruct (step E st o) as [[st' out]|e] eqn:Hs; [|simpl; lia].
  specialize (IH st'). destruct (run E st' ops) as [shapes e].
  rewrite filter_cons. destruct out as [s|].
  - apply step_yields_on_S in Hs as (Ho & _ & _).
    rewrite decide_True by done. unfold operation in *. simpl in *. lia.
  - unfold operation in *. case_decide; simpl in *; lia.
Qed.

Lemma shapes_at_most_armings (st : state) (ops : list operation) :
  length (fst (run E st ops))
  <= length (filter (fun o => o = ("RG", YELLOW)) ops)
     + (if armed st then 1 else 0).
Proof.
  revert st. induction ops as [|o ops IH]; intros st; [simpl; lia|].
  cbn [run]. destruct (step E st o) as [[st' out]|e] eqn:Hs; [|simpl; lia].
  specialize (IH st'). destruct (run E st' ops) as [shapes e].
  rewrite filter_cons. case_decide as Ho.
  - subst o. rewrite step_arming in Hs. simplify_eq.
    unfold operation in *. simpl in *. lia.
  - destruct out as [s|].
    + apply step_yields_on_S in Hs as (_ & -> & Hst'). rewrite Hst' in IH.
      unfold operation in *. simpl in *. lia.
    + destruct (armed st) eqn:Hst.
      * unfold operation in *. destruct (armed st'); simpl in *; lia.
      * rewrite step_unarmed in Hs by done. simplify_eq. rewrite Hst in IH.
        unfold operation in *. simpl in *. lia.
Qed.

(** The interpreter yields at most one shape per [S] record and at most one
    per matching [RG] record. *)
Theorem shapes_bounded_by_strokes (ops : list operation) :
  length (fst (run E initial ops)) <= length (filter (fun o => fst o = "S") ops) /\
  length (fst (run E initial ops))
  <= length (filter (fun o => o = ("RG", YELLOW)) ops).
Proof.
  split; [apply shapes_at_most_S|].
  pose proof (shapes_at_most_armings initial ops) as H.
  unfold operation in *. simpl in H. lia.
Qed.

End WithEnv.

Lemma move_replaced_by_next_move_witness :
  run Sample.env {| current_line := Some [None]; width := None;
                    cap_style := None; join_style := None |}
      (("m", "0" :: "0" :: []) :: ("m", ["3"; "4"]) :: [("l", ["5"; "6"])])
  = run Sample.env {| current_line := Some [None]; width := None;
                      cap_style := None; join_style := None |}
        (("m", ["3"; "4"]) :: [("l", ["5"; "6"])]).
Proof.
  apply (move_replaced_by_next_move Sample.env _ "0" "0" [] ["3"; "4"] 0%Q 0%Q
           [("l", ["5"; "6"])]); reflexivity.
Defined.

Lemma stroke_end_on_incomplete_stroke_witness :
  exists msg,
    step Sample.env {| current_line := Some [None; Some (0, 0)%Q]; width := Some 1%Q;
                       cap_style := None; join_style := Some JOIN_round |} ("S", [])
    = Raise (AssertionError msg) /\
    forall rest,
      run Sample.env {| current_line := Some [None; Some (0, 0)%Q]; width := Some 1%Q;
                        cap_style := None; join_style := Some JOIN_round |}
          (("S", []) :: rest)
      = ([], Some (AssertionError msg)).
Proof.
  apply (stroke_end_on_incomplete_stroke Sample.env
           {| current_line := Some [None; Some (0, 0)%Q]; width := Some 1%Q;
              cap_style := None; join_style := Some JOIN_round |} []).
  - reflexivity.
  - right. left. reflexivity.
Defined.

Lemma transform_matrix_compared_as_text_witness :
  exists msg,
    step Sample.env {| current_line := Some [None]; width := None;
                       cap_style := None; join_style := None |}
         ("cm", ["1.0"; "0"; "0"; "1"; "0"; "0"])
    = Raise (NotImplementedError msg).
Proof.
  apply (proj2 (proj2 (transform_matrix_compared_as_text Sample.env
                         {| current_line := Some [None]; width := None;
                            cap_style := None; join_style := None |}
                         ["1.0"; "0"; "0"; "1"; "0"; "0"]))).
  - reflexivity.
  - discriminate.
Defined.

End InterpreterEdges.

(** ** Classification of a page's polygons, and the two policies *)

Module MatcherMore.
Import Extract GeometryFacts GeometryRel.
Local Open Scope Q_scope.

(** [classify_highlights] splits the polygons in two without losing,
    repeating or reordering any: the Textual ones and the Selection ones,
    each in the order of the input. *)
Theorem classify_highlights_partition (polys : list Polygon) (threshold : Q) :
  classify_highlights polys threshold
  = (filter (fun p => classify_highlight p threshold = TEXTUAL) polys,
     filter (fun p => classify_highlight p threshold = SELECTION) polys).
Proof.
  induction polys as [|p polys IH]; [done|].
  simpl. rewrite IH, !filter_cons.
  destruct (classify_highlight p threshold); by repeat case_decide.
Qed.

Lemma Qabs_zero (x : Q) : Qabs x == 0 -> x == 0.
Proof.
  intros H. pose proof (Qle_Qabs x) as H1. pose proof (Qle_Qabs (- x)) as H2.
  rewrite Qabs_opp in H2. lra.
Qed.




End MatcherMore.

(** ** [groupby]: what every group looks like *)

Section GroupByGroups.
Context {A K : Type} `{EqDecision K} (key : A -> K).

Lemma groupby_from_homogeneous (k : K) (g l : list A) :
  Forall (fun x => key x = k) g ->
  Forall (fun kg => Forall (fun x => key x = fst kg) (snd kg)) (groupby_from key k g l).
Proof.
  revert k g. induction l as [|x l IH]; intros k g Hg; simpl.
  - by constructor.
  - case_decide as Hx.
    + apply IH. apply Forall_app. split; [done|]. by constructor.
    + constructor; [done|]. apply IH. by constructor.
Qed.

(** Every element of a group has the key of the group. *)
Lemma groupby_homogeneous (l : list A) :
  Forall (fun kg => Forall (fun x => key x = fst kg) (snd kg)) (groupby key l).
Proof.
  destruct l as [|x l]; [constructor|]. simpl.
  apply groupby_from_homogeneous. by constructor.
Qed.

Lemma groupby_from_nonempty (k : K) (g l : list A) :
  g <> [] -> Forall (fun kg => snd kg <> []) (groupby_from key k g l).
Proof.
  revert k g. induction l as [|x l IH]; intros k g Hg; simpl.
  - by constructor.
  - case_decide as Hx.
    + apply IH. by destruct g.
    + constructor; [done|]. by apply IH.
Qed.

(** No group is empty. *)
Lemma groupby_nonempty (l : list A) :
  Forall (fun kg => snd kg <> []) (groupby key l).
Proof.
  destruct l as [|x l]; [constructor|]. simpl. by apply groupby_from_nonempty.
Qed.

Lemma groupby_concat (l : list A) : concat (map snd (groupby key l)) = l.
Proof.
  destruct l as [|x l]; [done|]. simpl. by rewrite groupby_from_concat.
Qed.

End GroupByGroups.

(** ** What the run merger keeps *)

Module RunMergerMore.
Import RunMerger RunMergerFacts.

(** A gap of more than [max_skip_len] words between two highlighted blocks
    separates them into two runs, and its words are in neither. *)
Theorem long_gap_splits (max_skip_len : Z) (a g b : list tagged) :
  a <> [] -> b <> [] ->
  highlighted a -> unhighlighted g -> highlighted b ->
  (max_skip_len < Z.of_nat (length g))%Z -> g <> [] ->
  run_merger max_skip_len (a ++ g ++ b)
  = [join " " (map fst a); join " " (map fst b)].
Proof.
  intros Ha Hb Pa Pg Pb Hlen Hg. unfold run_merger, merge.
  rewrite runs_block_gap_block by done.
  unfold marked_skips. simpl. rewrite length_map.
  assert (Hn : ~ (Z.of_nat (length g) <= max_skip_len)%Z) by lia.
  rewrite (bool_decide_false _ Hn). by settle_groups.
Qed.

Lemma long_gap_splits_witness :
  run_merger 1 ([("a", true)] ++ [("b", false); ("c", false)] ++ [("d", true)])
  = [join " " (map fst [("a", true)]); join " " (map fst [("d", true)])].
Proof.
  apply (long_gap_splits 1 [("a", true)] [("b", false); ("c", false)] [("d", true)]).
  - done.
  - done.
  - repeat constructor.
  - repeat constructor.
  - repeat constructor.
  - simpl. lia.
  - done.
Defined.

(** The groups kept by the filter, flattened, are the elements whose key is
    true. *)
Lemma kept_groups_flatten {B : Type} (gs : list (bool * list (bool * B))) :
  Forall (fun kg => Forall (fun x => fst x = fst kg) (snd kg)) gs ->
  concat (map snd (List.filter fst gs)) = List.filter fst (concat (map snd gs)).
Proof.
  induction 1 as [|[k g] gs Hg _ IH]; [done|]. simpl in *.
  rewrite List.filter_app, <- IH.
  assert (Hkeep : List.filter fst g = if k then g else []).
  { clear IH. induction Hg as [|[k' x] g Hx _ IHg]; [by destruct k|].
    simpl in *. subst k'. rewrite IHg. by destruct k. }
  rewrite Hkeep. by destruct k.
Qed.

Lemma merged_runs_flatten (ms : list (bool * list string)) :
  concat (merged_runs ms) = concat (map snd (List.filter fst ms)).
Proof.
  unfold merged_runs.
  rewrite <- (groupby_concat fst ms) at 2.
  rewrite <- kept_groups_flatten by apply groupby_homogeneous.
  induction (List.filter fst (groupby fst ms)) as [|[k g] gs IH]; [done|].
  simpl. by rewrite map_app, concat_app, IH.
Qed.

Lemma runs_words (ws : list tagged) : concat (map snd (runs ws)) = map fst ws.
Proof.
  unfold runs. rewrite <- (groupby_concat snd ws) at 2.
  induction (groupby snd ws) as [|[k g] gs IH]; [done|].
  simpl. by rewrite map_app, IH.
Qed.

Lemma runs_highlighted_words (ws : list tagged) :
  concat (map snd (List.filter fst (runs ws))) = map fst (List.filter snd ws).
Proof.
  unfold runs. rewrite <- (groupby_concat snd ws) at 2.
  pose proof (groupby_homogeneous snd ws) as Hh.
  induction Hh as [|[k g] gs Hg _ IH]; [done|]. simpl in *.
  rewrite List.filter_app, map_app, <- IH.
  assert (Hkeep : List.filter snd g = if k then g else []).
  { clear IH. induction Hg as [|[w k'] g Hx _ IHg]; [by destruct k|].
    simpl in *. subst k'. rewrite IHg. by destruct k. }
  rewrite Hkeep. by destruct k.
Qed.

Lemma marked_keeps_selected (max_skip_len : Z) (rs : list (bool * list string)) :
  concat (map snd (List.filter fst rs))
    `sublist_of` concat (map snd (List.filter fst (marked_skips max_skip_len rs))) /\
  concat (map snd (List.filter fst (marked_skips max_skip_len rs)))
    `sublist_of` concat (map snd rs).
Proof.
  induction rs as [|[sel run] rs [IH1 IH2]]; [done|]. simpl.
  destruct sel; simpl.
  - split; by apply sublist_app.
  - case_bool_decide; simpl.
    + split; [by apply sublist_inserts_l | by apply sublist_app].
    + split; [done | by apply sublist_inserts_l].
Qed.

(** The output, read as one sequence of words, holds every highlighted
    word of the page and only words of the page, in reading order: no
    highlighted word is lost, and no word is repeated or moved. *)
Theorem merged_words_between (max_skip_len : Z) (ws : list tagged) :
  map fst (List.filter snd ws) `sublist_of` concat (merge max_skip_len ws) /\
  concat (merge max_skip_len ws) `sublist_of` map fst ws.
Proof.
  unfold merge. rewrite merged_runs_flatten.
  destruct (marked_keeps_selected max_skip_len (runs ws)) as [H1 H2].
  rewrite runs_highlighted_words in H1. rewrite runs_words in H2. done.
Qed.

End RunMergerMore.

(** ** [groupby]: neighbouring groups differ in their key *)

Section GroupByAlternates.
Context {A K : Type} `{EqDecision K} (key : A -> K).

Lemma groupby_from_head (k : K) (g l : list A) :
  exists g' tail, groupby_from key k g l = (k, g') :: tail.
Proof.
  revert g. induction l as [|x l IH]; intros g; simpl; [eauto|].
  case_decide; eauto.
Qed.

Lemma groupby_from_alternating (k : K) (g l : list A) :
  alternating (groupby_from key k g l).
Proof.
  revert k g. induction l as [|x l IH]; intros k g; simpl; [done|].
  case_decide as Hx; [apply IH|].
  destruct (groupby_from_head (key x) [x] l) as (g' & tail & Heq).
  specialize (IH (key x) [x]). rewrite Heq in *. simpl. split; [|done].
  simpl. congruence.
Qed.

Lemma groupby_alternating (l : list A) : alternating (groupby key l).
Proof. destruct l as [|x l]; [done|]. apply groupby_from_alternating. Qed.

End GroupByAlternates.

Section GroupByOfAlternating.
Context {K B : Type} `{EqDecision K}.

Lemma alternating_map {C : Type} (h : B -> C) (rs : list (K * B)) :
  alternating rs -> alternating (map (fun r => (fst r, h (snd r))) rs).
Proof.
  induction rs as [|r1 [|r2 rs] IH]; simpl; try done.
  intros [Hne Halt]. split; [done|]. by apply IH.
Qed.

(** Grouping by the flag a sequence whose neighbours differ in it makes
    every element a group of its own. *)
Lemma groupby_of_alternating (rs : list (K * B)) :
  alternating rs -> groupby fst rs = map (fun r => (fst r, [r])) rs.
Proof.
  destruct rs as [|r1 rs]; [done|]. simpl. revert r1.
  induction rs as [|r2 rs IH]; intros r1; simpl; [done|].
  intros [Hne Halt]. rewrite decide_False by congruence. f_equal.
  apply IH. exact Halt.
Qed.

End GroupByOfAlternating.

Module RunMergerExact.
Import RunMerger RunMergerFacts RunMergerMore.

Lemma runs_nonempty (ws : list tagged) : Forall (fun r => snd r <> []) (runs ws).
Proof.
  unfold runs. pose proof (groupby_nonempty snd ws) as H.
  induction H as [|[k g] gs Hg _ IH]; [constructor|].
  constructor; [|exact IH]. simpl in *. by destruct g.
Qed.

Lemma runs_alternating (ws : list tagged) : alternating (runs ws).
Proof.
  unfold runs. pose proof (groupby_alternating snd ws) as H.
  replace (map (fun '(is_selected, words) => (is_selected, map fst words)) (groupby snd ws))
    with (map (fun r : bool * list tagged => (fst r, map fst (snd r))) (groupby snd ws))
    by (apply map_ext; by intros [k g]).
  by apply alternating_map.
Qed.

Lemma marked_skips_off (max_skip_len : Z) (rs : list (bool * list string)) :
  (max_skip_len <= 0)%Z -> Forall (fun r => snd r <> []) rs ->
  marked_skips max_skip_len rs = rs.
Proof.
  intros Hk H. induction H as [|[sel run] rs Hr _ IH]; [done|].
  unfold marked_skips in *. simpl in *. rewrite IH.
  rewrite bool_decide_false; [by rewrite orb_false_r|].
  destruct run; [done|]. simpl. lia.
Qed.

(** With [max_skip_len] at most 0 nothing is bridged: the output runs are
    exactly the maximal runs of highlighted words, one output for each. *)
Theorem no_skip_gives_highlighted_runs (max_skip_len : Z) (ws : list tagged) :
  (max_skip_len <= 0)%Z ->
  merge max_skip_len ws = map snd (List.filter fst (runs ws)) /\
  concat (merge max_skip_len ws) = map fst (List.filter snd ws).
Proof.
  intros Hk.
  assert (Hm : merge max_skip_len ws = map snd (List.filter fst (runs ws))).
  { unfold merge. rewrite marked_skips_off by (done || apply runs_nonempty).
    unfold merged_runs. rewrite groupby_of_alternating by apply runs_alternating.
    induction (runs ws) as [|[sel run] rs IH]; [done|].
    simpl. destruct sel; simpl; [|done]. by rewrite app_nil_r, IH. }
  split; [done|]. rewrite Hm. apply runs_highlighted_words.
Qed.

Lemma no_skip_gives_highlighted_runs_witness :
  merge 0 [("a", true); ("b", false); ("c", true)]
  = map snd (List.filter fst (runs [("a", true); ("b", false); ("c", true)])) /\
  concat (merge 0 [("a", true); ("b", false); ("c", true)])
  = map fst (List.filter snd [("a", true); ("b", false); ("c", true)]).
Proof.
  apply (no_skip_gives_highlighted_runs 0 [("a", true); ("b", false); ("c", true)]).
  lia.
Defined.

(** No output run is without words. *)
Theorem merged_runs_have_words (max_skip_len : Z) (ws : list tagged) :
  Forall (fun run => run <> []) (merge max_skip_len ws).
Proof.
  unfold merge.
  assert (Hr : Forall (fun r => snd r <> []) (marked_skips max_skip_len (runs ws))).
  { pose proof (runs_nonempty ws) as H. unfold marked_skips.
    induction H as [|[sel run] rs Hrun _ IH]; constructor; done. }
  revert Hr. generalize (marked_skips max_skip_len (runs ws)). intros ms Hr.
  unfold merged_runs.
  pose proof (groupby_nonempty fst ms) as Hne.
  pose proof (groupby_concat fst ms) as Hcat.
  assert (Hin : Forall (fun kg => Forall (fun r => snd r <> []) (snd kg)) (groupby fst ms)).
  { rewrite <- Hcat in Hr. clear Hcat Hne.
    induction (groupby fst ms) as [|[k g] gs IH]; [constructor|].
    simpl in Hr. apply Forall_app in Hr as [Hg Hgs].
    constructor; [done | by apply IH]. }
  clear Hcat Hr.
  induction (groupby fst ms) as [|[k g] gs IH]; [constructor|].
  apply Forall_cons in Hne as [Hg Hne]. apply Forall_cons in Hin as [Hgr Hin].
  simpl. destruct k; simpl; [|by apply IH].
  constructor; [|by apply IH].
  simpl in *. destruct g as [|[s run] g]; [done|].
  apply Forall_cons in Hgr as [Hrun _]. simpl in *. by destruct run.
Qed.

End RunMergerExact.

(** ** The page loop, continued *)

Module PipelineMore.
Import Parsing Extract PipelineFacts.

Section WithEnv.
Variable E : Env.
Variables (max_skip_len : Z) (name : string) (threshold zoom : Q).

Lemma extract_streams_skipped (cs : list (option string)) :
  Forall (fun c => forall content, c = Some content ->
                     content_contains_highlight content = false) cs ->
  extract_streams E cs = Ok [].
Proof.
  induction 1 as [|c cs Hc _ IH]; [done|]. simpl.
  destruct c as [content|]; [|done]. by rewrite (Hc content eq_refl).
Qed.

(** A page none of whose streams holds the highlighter colour as text is
    not parsed at all: it yields no shape, raises nothing whatever its
    streams hold, and leaves both mappings as they are. *)
Theorem page_without_colour_text_skipped
    (acc : gmap Z (list string) * gmap Z (list Pixmap)) (page : Page) :
  Forall (fun c => forall content, c = Some content ->
                     content_contains_highlight content = false) (contents page) ->
  extract_highlight_lines E page = Ok [] /\
  process_page E max_skip_len name threshold zoom acc page = Ok acc.
Proof.
  intros H. assert (Hl : extract_highlight_lines E page = Ok []).
  { unfold extract_highlight_lines. by rewrite extract_streams_skipped. }
  split; [done|]. unfold process_page. destruct acc. by rewrite Hl.
Qed.

Lemma pages_loop_app acc (doc1 doc2 : list Page) :
  pages_loop E max_skip_len name threshold zoom acc (doc1 ++ doc2)
  = let* acc' := pages_loop E max_skip_len name threshold zoom acc doc1 in
    pages_loop E max_skip_len name threshold zoom acc' doc2.
Proof.
  revert acc. induction doc1 as [|page doc1 IH]; intros acc; simpl; [done|].
  destruct (process_page E max_skip_len name threshold zoom acc page); simpl; [|done].
  apply IH.
Qed.

(** Pages are not isolated from each other's failures: when the strokes of
    a page cannot be read, the whole run ends with that exception, and the
    results of the pages before it are lost. *)
Theorem page_failure_aborts_run (pre : list Page) (page : Page) (post : list Page)
    (e : exn) r :
  extract_highlights E pre max_skip_len name threshold zoom = Ok r ->
  extract_highlight_lines E page = Raise e ->
  extract_highlights E (pre ++ page :: post) max_skip_len name threshold zoom
  = Raise e.
Proof.
  unfold extract_highlights. intros Hpre Hpage.
  rewrite pages_loop_app, Hpre. simpl.
  unfold process_page. destruct r. by rewrite Hpage.
Qed.

Lemma extend_key {V : Type} (d : gmap Z (list V)) (k k' : Z) (new : list V) :
  is_Some (extend d k new !! k') -> k' = k \/ is_Some (d !! k').
Proof.
  unfold extend. rewrite lookup_insert_is_Some. intros [->|[_ H]]; eauto.
Qed.

Lemma process_page_keys acc acc' (page : Page) (k : Z) :
  process_page E max_skip_len name threshold zoom acc page = Ok acc' ->
  is_Some (fst acc' !! k) \/ is_Some (snd acc' !! k) ->
  (is_Some (fst acc !! k) \/ is_Some (snd acc !! k)) \/
  (k = (number page + 1)%Z /\
   exists l ls, extract_highlight_lines E page = Ok (l :: ls)).
Proof.
  unfold process_page. destruct acc as [texts clips].
  destruct (extract_highlight_lines E page) as [[|l ls]|e] eqn:Hl; simpl; try done.
  { intros [= <-]. tauto. }
  destruct (merge_highlight_lines E (l :: ls)) as [polys|e]; simpl; [|done].
  destruct (classify_highlights polys threshold) as [text sel].
  assert (Hclips : forall clips', clips' = match sel with
                     | [] => clips
                     | _ :: _ => extend clips (number page + 1)%Z
                                        (extract_clips E sel page zoom)
                     end ->
                   is_Some (clips' !! k) ->
                   k = (number page + 1)%Z \/ is_Some (clips !! k)).
  { intros clips' -> H. destruct sel; [tauto|]. by apply extend_key in H. }
  destruct text as [|t ts].
  - intros [= <-]. simpl. intros [H|H]; [tauto|].
    apply (Hclips _ eq_refl) in H as [->|H]; eauto 10.
  - destruct (WordSelectionMethod_getitem name) as [m|e]; simpl; [|done].
    destruct (extract_text_highlights E (t :: ts) page (member m) max_skip_len)
      as [ths|e]; simpl; [|done].
    intros [= <-]. simpl. intros [H|H].
    + apply extend_key in H as [->|H]; eauto 10.
    + apply (Hclips _ eq_refl) in H as [->|H]; eauto 10.
Qed.

Lemma pages_loop_keys acc r (doc : list Page) (k : Z) :
  pages_loop E max_skip_len name threshold zoom acc doc = Ok r ->
  is_Some (fst r !! k) \/ is_Some (snd r !! k) ->
  (is_Some (fst acc !! k) \/ is_Some (snd acc !! k)) \/
  exists page, page ∈ doc /\ k = (number page + 1)%Z /\
               exists l ls, extract_highlight_lines E page = Ok (l :: ls).
Proof.
  revert acc. induction doc as [|page doc IH]; intros acc; simpl.
  - intros [= <-]. tauto.
  - destruct (process_page E max_skip_len name threshold zoom acc page)
      as [acc'|e] eqn:Hp; simpl; [|done].
    intros Hr Hk. destruct (IH acc' Hr Hk) as [Hacc'|(p & Hin & Hp')].
    + destruct (process_page_keys acc acc' page k Hp Hacc') as [?|[-> ?]]; [tauto|].
      right. exists page. split; [apply list_elem_of_here|done].
    + right. exists p. split; [by apply list_elem_of_further|done].
Qed.

(** A page number occurs as a key of the two mappings only as the number,
    plus one, of a page of the document on which highlighter strokes were
    found; pages without strokes are absent from both. *)
Theorem result_keys_are_highlighted_pages (doc : list Page) r (k : Z) :
  extract_highlights E doc max_skip_len name threshold zoom = Ok r ->
  is_Some (fst r !! k) \/ is_Some (snd r !! k) ->
  exists page, page ∈ doc /\ k = (number page + 1)%Z /\
               exists l ls, extract_highlight_lines E page = Ok (l :: ls).
Proof.
  intros Hr Hk. destruct (pages_loop_keys (∅, ∅) r doc k Hr Hk) as [[H|H]|H]; [| |done].
  - simpl in H. rewrite lookup_empty in H. by destruct H.
  - simpl in H. rewrite lookup_empty in H. by destruct H.
Qed.

End WithEnv.

End PipelineMore.

Module PipelineMoreWitnesses.
Import Parsing Extract PipelineFacts PipelineMore Sample.

Lemma page_without_colour_text_skipped_witness :
  extract_highlight_lines Sample.env plain_page = Ok [] /\
  process_page Sample.env 3 "CENTROID" (inject_Z 1000) (inject_Z 3) (∅, ∅) plain_page
  = Ok (∅, ∅).
Proof.
  apply (page_without_colour_text_skipped Sample.env 3%Z "CENTROID"
           (inject_Z 1000) (inject_Z 3) (∅, ∅) plain_page).
  apply Forall_cons_2; [|apply Forall_nil_2].
  intros content Hc. injection Hc as <-. reflexivity.
Defined.

Lemma page_failure_aborts_run_witness :
  extract_highlights Sample.env
    ([plain_page]
     ++ mkPage 1 (mkRect 0 0 100 100) [Some "1 0.952941 0.658824 RG 0 J"] []
     :: [marked_page])
    3 "CENTROID" (inject_Z 1000) (inject_Z 3)
  = Raise (KeyErrorInt 0).
Proof.
  apply (page_failure_aborts_run Sample.env 3%Z "CENTROID" (inject_Z 1000) (inject_Z 3)
           [plain_page]
           (mkPage 1 (mkRect 0 0 100 100) [Some "1 0.952941 0.658824 RG 0 J"] [])
           [marked_page] (KeyErrorInt 0) (∅, ∅)).
  - reflexivity.
  - reflexivity.
Defined.

Lemma result_keys_are_highlighted_pages_witness :
  exists page, page ∈ [plain_page; marked_page] /\ 2%Z = (number page + 1)%Z /\
    exists l ls, extract_highlight_lines Sample.env page = Ok (l :: ls).
Proof.
  apply (result_keys_are_highlighted_pages Sample.env 3%Z "CENTROID"
           (inject_Z 1000) (inject_Z 3) [plain_page; marked_page]
           ({[ 2%Z := ["word"] ]}, ∅) 2%Z).
  - vm_compute. reflexivity.
  - left. simpl. rewrite lookup_singleton_eq. by eexists.
Defined.

End PipelineMoreWitnesses.
